(** * bets-app: the bet submission gateway of [main.go]

    A shallow embedding of the request handlers of [main.go] and of the
    helpers they call, followed by the properties of the handlers.

    The program is a Go HTTP service.  [CreateBet] checks the content type
    of the inbound request, decodes its body, calls three upstream services
    one after the other ([match], [player], [championship]) and answers with
    either an aggregate error or an assembled [Bet]; [Health] answers with a
    constant.

    What lies outside [main.go] is a collaborator of the model:
    - the network ([client.Do]), the process environment ([os.Getenv]), the
      URL parser behind [http.NewRequest] and the decoders of
      [encoding/json] are fields of a [Platform];
    - [net/http]'s header map, [textproto]'s key canonicalisation,
      [http.StatusText], [strconv.Itoa] and the struct encoder of
      [encoding/json] (field order, [omitempty]) are written out;
    - logging has no effect on what a handler returns and is left out.

    A Go pointer that may be [nil] is an [option]; dereferencing [nil]
    panics, and a panic is an outcome of the handler monad. *)

From Stdlib Require Import ZArith String Ascii List Bool Lia.
From stdpp Require Import base option gmap strings list fin_maps pretty sorting.

Open Scope string_scope.
Open Scope list_scope.
Open Scope Z_scope.

(** ** Go values used by the program *)

(** Where an [error] value was made.  The program only tests errors against
    [nil] and reads their text. *)
Inductive errorOrigin : Type :=
  | FromErrorsNew     (* errors.New *)
  | FromTransport     (* client.Do *)
  | FromJSON          (* encoding/json *)
  | FromIO.           (* reading a body *)

Record error : Type := mkError { origin : errorOrigin; text : string }.

(** [errors.New(text)] *)
Definition errors_New (s : string) : error :=
  {| origin := FromErrorsNew; text := s |}.

(** The method [err.Error()], applied. *)
Definition error_Error (e : error) : string := text e.

(** A value of type [interface{}], as far as the program makes one: a string,
    or a function value of type [func() string]. *)
Inductive any : Type :=
  | anyString (s : string)
  | anyFunc (f : unit -> string).

(** A body ([io.ReadCloser]): the bytes it yields, then end of file or a
    read error. *)
Record Body : Type := mkBody { content : string; failure : option error }.

Definition NoBody : Body := {| content := ""; failure := None |}.

(** [ioutil.ReadAll] *)
Definition ioutil_ReadAll (b : Body) : string * option error :=
  (content b, failure b).

(** ** [net/textproto]: canonical header keys *)

Module textproto.

Definition byte_in (lo hi c : ascii) : bool :=
  (N_of_ascii lo <=? N_of_ascii c)%N && (N_of_ascii c <=? N_of_ascii hi)%N.

Definition isLower (c : ascii) : bool := byte_in "a" "z" c.
Definition isUpper (c : ascii) : bool := byte_in "A" "Z" c.
Definition isDigit (c : ascii) : bool := byte_in "0" "9" c.

(** [isTokenTable]: the bytes of an HTTP token. *)
Definition isToken (c : ascii) : bool :=
  isLower c || isUpper c || isDigit c ||
  existsb (Ascii.eqb c)
    ["!"; "#"; "$"; "%"; "&"; "'"; "*"; "+"; "-"; "."; "^"; "_"; "`"; "|"; "~"]%char.

Definition validHeaderFieldByte (c : ascii) : bool := isToken c.

(** [toLower = 'a' - 'A'] *)
Definition toLower : N := 32.

(** The second loop of [canonicalMIMEHeaderKey]: upper case at the start
    and after each dash, lower case elsewhere. *)
Fixpoint canonicalize (upper : bool) (a : string) : string :=
  match a with
  | EmptyString => EmptyString
  | String c rest =>
      let c' :=
        if upper && isLower c then ascii_of_N (N_of_ascii c - toLower)
        else if negb upper && isUpper c then ascii_of_N (N_of_ascii c + toLower)
        else c in
      String c' (canonicalize (Ascii.eqb c' "-") rest)
  end.

Fixpoint allValid (a : string) : bool :=
  match a with
  | EmptyString => true
  | String c rest => validHeaderFieldByte c && allValid rest
  end.

(** [CanonicalMIMEHeaderKey]: a key with a byte that is not a token byte
    is returned unchanged. *)
Definition CanonicalMIMEHeaderKey (s : string) : string :=
  if allValid s then canonicalize true s else s.

End textproto.

(** ** [net/http]: headers, requests, responses *)

(** [http.Header] is [map[string][]string]. *)
Abbreviation Header := (gmap string (list string)).

(** [Header.Get]: the first value under the canonical key, or [""]. *)
Definition Header_Get (h : Header) (key : string) : string :=
  match h !! textproto.CanonicalMIMEHeaderKey key with
  | Some (v :: _) => v
  | _ => ""
  end.

(** [Header.Set]: the canonical key now holds exactly [value]. *)
Definition Header_Set (h : Header) (key value : string) : Header :=
  <[textproto.CanonicalMIMEHeaderKey key := [value]]> h.

Record Request : Type := mkRequest {
  Method : string;
  URL : string;
  ReqHeader : Header;
  ReqBody : Body
}.

Definition with_Header (r : Request) (h : Header) : Request :=
  {| Method := Method r; URL := URL r; ReqHeader := h; ReqBody := ReqBody r |}.

Definition with_Body (r : Request) (b : Body) : Request :=
  {| Method := Method r; URL := URL r; ReqHeader := ReqHeader r; ReqBody := b |}.

Record Response : Type := mkResponse {
  Status : string;        (* e.g. "200 OK" *)
  StatusCode : Z;         (* e.g. 200 *)
  ResHeader : Header;
  ResBody : Body
}.

(** [http.StatusText] *)
Definition http_StatusText (code : Z) : string :=
  match code with
  | 100 => "Continue"
  | 101 => "Switching Protocols"
  | 102 => "Processing"
  | 103 => "Early Hints"
  | 200 => "OK"
  | 201 => "Created"
  | 202 => "Accepted"
  | 203 => "Non-Authoritative Information"
  | 204 => "No Content"
  | 205 => "Reset Content"
  | 206 => "Partial Content"
  | 207 => "Multi-Status"
  | 208 => "Already Reported"
  | 226 => "IM Used"
  | 300 => "Multiple Choices"
  | 301 => "Moved Permanently"
  | 302 => "Found"
  | 303 => "See Other"
  | 304 => "Not Modified"
  | 305 => "Use Proxy"
  | 307 => "Temporary Redirect"
  | 308 => "Permanent Redirect"
  | 400 => "Bad Request"
  | 401 => "Unauthorized"
  | 402 => "Payment Required"
  | 403 => "Forbidden"
  | 404 => "Not Found"
  | 405 => "Method Not Allowed"
  | 406 => "Not Acceptable"
  | 407 => "Proxy Authentication Required"
  | 408 => "Request Timeout"
  | 409 => "Conflict"
  | 410 => "Gone"
  | 411 => "Length Required"
  | 412 => "Precondition Failed"
  | 413 => "Request Entity Too Large"
  | 414 => "Request URI Too Long"
  | 415 => "Unsupported Media Type"
  | 416 => "Requested Range Not Satisfiable"
  | 417 => "Expectation Failed"
  | 418 => "I'm a teapot"
  | 421 => "Misdirected Request"
  | 422 => "Unprocessable Entity"
  | 423 => "Locked"
  | 424 => "Failed Dependency"
  | 425 => "Too Early"
  | 426 => "Upgrade Required"
  | 428 => "Precondition Required"
  | 429 => "Too Many Requests"
  | 431 => "Request Header Fields Too Large"
  | 451 => "Unavailable For Legal Reasons"
  | 500 => "Internal Server Error"
  | 501 => "Not Implemented"
  | 502 => "Bad Gateway"
  | 503 => "Service Unavailable"
  | 504 => "Gateway Timeout"
  | 505 => "HTTP Version Not Supported"
  | 506 => "Variant Also Negotiates"
  | 507 => "Insufficient Storage"
  | 508 => "Loop Detected"
  | 510 => "Not Extended"
  | 511 => "Network Authentication Required"
  | _ => ""
  end.

Definition http_StatusUnsupportedMediaType : Z := 415.
Definition http_StatusInternalServerError : Z := 500.
Definition http_StatusServiceUnavailable : Z := 503.
Definition http_StatusCreated : Z := 201.

(** [strconv.Itoa] *)
Definition strconv_Itoa (i : Z) : string := pretty i.

(** [http.NewRequest(method, url, nil)], given whether [url.Parse] accepts
    the URL: a request with an empty header map, or [nil] and an error. *)
Definition validMethod (method : string) : bool :=
  negb (String.eqb method "") && textproto.allValid method.

Definition http_NewRequest (parse : string -> option error) (method url : string)
  : option Request * option error :=
  let method := if String.eqb method "" then "GET" else method in
  if negb (validMethod method)
  then (None, Some {| origin := FromErrorsNew; text := "net/http: invalid method" |})
  else match parse url with
       | Some err => (None, Some err)
       | None =>
           (Some {| Method := method; URL := url; ReqHeader := ∅; ReqBody := NoBody |},
            None)
       end.

(** ** [encoding/json]: the documents the program sends *)

#[warnings="-register-all"]
Inductive json : Type :=
  | JString (s : string)
  | JNumber (n : Z)
  | JObject (members : list (string * json)).

(** A string field tagged [omitempty] is left out when it is empty. *)
Definition omitempty (name value : string) : list (string * json) :=
  if String.eqb value "" then [] else [(name, JString value)].

(** A [map[string]int] is written with its keys in increasing order. *)
Definition key_le (x y : string * Z) : Prop := String.leb x.1 y.1.

#[local] Instance key_le_dec x y : Decision (key_le x y) :=
  Is_true_dec (String.leb x.1 y.1).

Definition marshal_map (m : gmap string Z) : json :=
  JObject ((λ kv, (kv.1, JNumber kv.2)) <$> merge_sort key_le (map_to_list m)).

Definition members (j : json) : list (string * json) :=
  match j with
  | JObject ms => ms
  | _ => []
  end.

(** The value of member [name] of an object, if it has one. *)
Definition member (name : string) (j : json) : option json :=
  snd <$> List.find (λ kv, String.eqb kv.1 name) (members j).

(** ** The types of [main.go] *)

Record HealthData : Type := mkHealthData {
  HealthData_Status : string      (* `json:"status,omitempty"` *)
}.

Record Bet : Type := mkBet {
  Bet_HomeTeamScore : string;     (* `json:"homeTeamScore,omitempty"` *)
  Bet_AwayTeamScore : string;     (* `json:"awayTeamScore,omitempty"` *)
  Bet_Championship : string;      (* `json:"championship,omitempty"` *)
  Bet_Match : string;             (* `json:"match,omitempty"` *)
  Bet_Email : string              (* `json:"email,omitempty"` *)
}.

Record Error : Type := mkErrorBody {
  Errors : gmap string Z          (* `json:"errors,omitempty"` *)
}.

Record Match : Type := mkMatch {
  Match_HomeTeam : string;        (* `json:"homeTeam,omitempty"` *)
  Match_AwayTeam : string;        (* `json:"awayTeam,omitempty"` *)
  Match_Championship : string     (* `json:"championship,omitempty"` *)
}.

Definition marshal_HealthData (h : HealthData) : json :=
  JObject (omitempty "status" (HealthData_Status h)).

Definition marshal_Bet (b : Bet) : json :=
  JObject (omitempty "homeTeamScore" (Bet_HomeTeamScore b) ++
           omitempty "awayTeamScore" (Bet_AwayTeamScore b) ++
           omitempty "championship" (Bet_Championship b) ++
           omitempty "match" (Bet_Match b) ++
           omitempty "email" (Bet_Email b)).

Definition marshal_Error (e : Error) : json :=
  JObject (if decide (Errors e = ∅) then [] else [("errors", marshal_map (Errors e))]).

(** ** [echo]: what a handler sees *)

(** [echo.Context]: the inbound request.  The response under construction
    is part of the handler state below. *)
Record Context : Type := mkContext { Context_Request : Request }.

Record HTTPError : Type := mkHTTPError { Code : Z; Message : any }.

(** [echo.NewHTTPError(code, message...)]: the message is the first extra
    argument, and the status text of [code] when there is none. *)
Definition echo_NewHTTPError (code : Z) (message : list any) : HTTPError :=
  {| Code := code;
     Message := match message with
                | m :: _ => m
                | [] => anyString (http_StatusText code)
                end |}.

(** [echo]'s [DefaultHTTPErrorHandler] on an [*HTTPError], for a response
    that is not yet committed; the middleware of [main] hands it every error
    a handler returns ([c.Error(err)]).  The status is the code of the
    error.  A message that is a string is sent as the object with the one
    member ["message"]; a [HEAD] request gets no body, and neither does a
    message that [encoding/json] cannot encode, such as a function. *)
Definition http_MethodHead : string := "HEAD".

Definition echo_DefaultHTTPErrorHandler (he : HTTPError) (c : Context)
  : Z * option json :=
  if String.eqb (Method (Context_Request c)) http_MethodHead
  then (Code he, None)
  else match Message he with
       | anyString msg => (Code he, Some (JObject [("message", JString msg)]))
       | anyFunc _ => (Code he, None)
       end.

(** ** Header forwarding as a function on header maps *)

(** The first value stored under a key, [""] when there is none. *)
Definition first_value (h : Header) (k : string) : string :=
  match h !! k with
  | Some (v :: _) => v
  | _ => ""
  end.

(** One turn of the loop of [forwardHeaders] on the outbound header map. *)
Definition copyHeader (inbound : Header) (out : Header) (th : string) : Header :=
  let h := Header_Get inbound th in
  if negb (String.eqb h "") then Header_Set out th h else out.

Definition forwarded (inbound out : Header) (ths : list string) : Header :=
  fold_left (copyHeader inbound) ths out.

(** ** The platform *)

Class Platform : Type := {
  (** the state of everything beyond the process: the upstream services *)
  World : Type;
  (** [os.Getenv] *)
  os_Getenv : string -> string;
  (** [url.Parse]: the error, if the string is not a URL *)
  url_Parse : string -> option error;
  (** [client.Do] on a request that is not [nil]: a response or a transport
      error, and the world afterwards *)
  transport : Request -> World -> (Response + error) * World;
  (** [json.NewDecoder(body).Decode(v)] with [v] a pointer to a zero [Bet]:
      the value afterwards and the error *)
  json_Decode_Bet : Body -> Bet * option error;
  (** the same with [v] a pointer to a zero [Match] *)
  json_Decode_Match : Body -> Match * option error;
  (** [json.Unmarshal(data, &m)] with [m] a nil [map[string]string] *)
  json_Unmarshal_map : string -> gmap string string * option error
}.

(** One call of [client.Do]: the request sent and what came back. *)
Definition Exchange : Type := Request * (Response + error).

Section Program.

Context `{P : Platform}.

(** ** Handler state and the handler monad *)

Record St : Type := mkSt {
  world : World;
  exchanges : list Exchange;        (* the upstream calls made so far, oldest first *)
  written : option (Z * json)       (* the response written so far: status and body *)
}.

Inductive Res (A : Type) : Type :=
  | Val (a : A)
  | Panic (reason : string).

Arguments Val {A} a.
Arguments Panic {A} reason.

Definition M (A : Type) : Type := St -> Res A * St.

#[local] Instance M_ret : MRet M := λ A a st, (Val a, st).

#[local] Instance M_bind : MBind M := λ A B f m st,
  match m st with
  | (Val a, st') => f a st'
  | (Panic reason, st') => (Panic reason, st')
  end.

Definition panic {A : Type} (reason : string) : M A := λ st, (Panic reason, st).

Definition nil_dereference : string :=
  "runtime error: invalid memory address or nil pointer dereference".

(** [client.Do(req)]: a [nil] request panics; otherwise the transport
    answers and the exchange is recorded. *)
Definition client_Do (req : option Request) : M (Response + error) :=
  match req with
  | None => panic nil_dereference
  | Some r => λ st,
      let '(out, w) := transport r (world st) in
      (Val out, {| world := w;
                   exchanges := exchanges st ++ [(r, out)];
                   written := written st |})
  end.

(** [c.JSON(code, v)], given the encoding of [v]: writes the response and
    returns a nil error. *)
Definition c_JSON (code : Z) (body : json) : M (option HTTPError) := λ st,
  (Val None, {| world := world st;
                exchanges := exchanges st;
                written := Some (code, body) |}).

(** ** [main.go] *)

Definition incomingHeaders : list string :=
  [ "Authorization";
    "x-version";
    (* open tracing *)
    "x-request-id";
    "x-b3-traceid";
    "x-b3-spanid";
    "x-b3-parentspanid";
    "x-b3-sampled";
    "x-b3-flags";
    "x-ot-span-context" ].

(** [Health] *)
Definition Health (c : Context) : M (option HTTPError) :=
  c_JSON 200 (marshal_HealthData {| HealthData_Status := "UP" |}).

(** [hasError]: the loop over the variadic arguments. *)
Definition hasError (errs : list (option error)) : bool :=
  fold_left (λ r err, if err is Some _ then true else r) errs false.

(** [is2xx] *)
Definition is2xx (status : Z) : bool := (status >=? 200) && (status <? 300).

(** [forwardHeaders]: the loop over [incomingHeaders].  [r.Header] is only
    evaluated when a header is copied, so a [nil] request panics only then. *)
Fixpoint forwardHeaders_range (ctx : Context) (ths : list string) (r : option Request)
  : M (option Request) :=
  match ths with
  | [] => mret r
  | th :: ths' =>
      let h := Header_Get (ReqHeader (Context_Request ctx)) th in
      if negb (String.eqb h "")
      then match r with
           | None => panic nil_dereference
           | Some r0 =>
               forwardHeaders_range ctx ths'
                 (Some (with_Header r0 (Header_Set (ReqHeader r0) th h)))
           end
      else forwardHeaders_range ctx ths' r
  end.

Definition forwardHeaders (ctx : Context) (r : option Request) : M (option Request) :=
  forwardHeaders_range ctx incomingHeaders r.

(** [(m *Match) String()]: [fmt.Sprintf("%s %dx%d %s", h, 2, 3, a)]. *)
Definition Match_String (m : option Match) : M string :=
  match m with
  | None => panic nil_dereference
  | Some m =>
      let h := Match_HomeTeam m in
      let a := Match_AwayTeam m in
      mret (h +:+ " " +:+ pretty 2 +:+ "x" +:+ pretty 3 +:+ " " +:+ a)
  end.

(** [match] *)
Definition match_ (ctx : Context) : M (option Match * Z * option error) :=
  let '(req, _) := http_NewRequest url_Parse "GET" (os_Getenv "MATCH_SVC") in
  req ← forwardHeaders ctx req;
  out ← client_Do req;
  match out with
  | inr err => mret (None, 0, Some err)
  | inl res =>
      let status := StatusCode res in
      if negb (is2xx status)
      then mret (None, status, Some (errors_New (Status res)))
      else
        let '(data, jsonErr) := json_Decode_Match (ResBody res) in
        match jsonErr with
        | Some jsonErr => mret (None, 0, Some jsonErr)
        | None => mret (Some data, status, None)
        end
  end.

(** [championship] *)
Definition championship (ctx : Context) : M (string * Z * option error) :=
  let '(req, _) := http_NewRequest url_Parse "GET" (os_Getenv "CHAMPIONSHIP_SVC") in
  req ← forwardHeaders ctx req;
  out ← client_Do req;
  match out with
  | inr err => mret ("", 0, Some err)
  | inl res =>
      let status := StatusCode res in
      if negb (is2xx status)
      then mret ("", status, Some (errors_New (Status res)))
      else
        let '(body, readErr) := ioutil_ReadAll (ResBody res) in
        match readErr with
        | Some readErr => mret ("", status, Some readErr)
        | None =>
            let '(data, jsonErr) := json_Unmarshal_map body in
            match jsonErr with
            | Some jsonErr => mret ("", status, Some jsonErr)
            | None => mret (default "" (data !! "title"), status, None)
            end
        end
  end.

(** [player] *)
Definition player (ctx : Context) : M (string * Z * option error) :=
  let '(req, _) := http_NewRequest url_Parse "GET" (os_Getenv "PLAYER_SVC") in
  req ← forwardHeaders ctx req;
  out ← client_Do req;
  match out with
  | inr err => mret ("", 0, Some err)
  | inl res =>
      let status := StatusCode res in
      if negb (is2xx status)
      then mret ("", status, Some (errors_New (Status res)))
      else
        let '(body, readErr) := ioutil_ReadAll (ResBody res) in
        match readErr with
        | Some readErr => mret ("", status, Some readErr)
        | None =>
            let '(data, jsonErr) := json_Unmarshal_map body in
            match jsonErr with
            | Some jsonErr => mret ("", status, Some jsonErr)
            | None => mret (default "" (data !! "email"), status, None)
            end
        end
  end.

(** [CreateBet] *)
Definition CreateBet (c : Context) : M (option HTTPError) :=
  if negb (String.eqb (Header_Get (ReqHeader (Context_Request c)) "Content-Type")
             "application/json")
  then mret (Some (echo_NewHTTPError http_StatusUnsupportedMediaType []))
  else
    let '(bet, err) := json_Decode_Bet (ReqBody (Context_Request c)) in
    match err with
    | Some err =>
        mret (Some (echo_NewHTTPError http_StatusInternalServerError
                      [anyFunc (λ _, error_Error err)]))
    | None =>
        '(match', matchStatus, matchErr) ← match_ c;
        '(player', playerStatus, playerErr) ← player c;
        '(champ, champStatus, champErr) ← championship c;
        if hasError [matchErr; playerErr; champErr]
        then c_JSON http_StatusServiceUnavailable
               (marshal_Error {| Errors := {[ "players" := playerStatus;
                                               "matches" := matchStatus;
                                               "championships" := champStatus ]} |})
        else
          matchString ← Match_String match';
          let b := {| Bet_HomeTeamScore := strconv_Itoa 2;
                      Bet_AwayTeamScore := strconv_Itoa 3;
                      Bet_Championship := champ;
                      Bet_Match := matchString;
                      Bet_Email := player' |} in
          c_JSON http_StatusCreated (marshal_Bet b)
    end.

(** ** Vocabulary for the runs of the handlers *)

Implicit Types (ctx : Context) (st : St) (key : string).

(** The request an upstream call sends when the endpoint configured under
    [key] is a URL. *)
Definition outbound ctx key : Request :=
  {| Method := "GET";
     URL := os_Getenv key;
     ReqHeader := forwarded (ReqHeader (Context_Request ctx)) ∅ incomingHeaders;
     ReqBody := NoBody |}.

(** The handler state after one more exchange. *)
Definition record st (q : Request) (out : Response + error) (w : World) : St :=
  {| world := w; exchanges := exchanges st ++ [(q, out)]; written := written st |}.

(** What [match] returns for what came back from the network. *)
Inductive match_returns : Response + error → option Match * Z * option error → Prop :=
  | match_transport_error err :
      match_returns (inr err) (None, 0, Some err)
  | match_non_2xx res :
      is2xx (StatusCode res) = false →
      match_returns (inl res) (None, StatusCode res, Some (errors_New (Status res)))
  | match_undecodable res data jsonErr :
      is2xx (StatusCode res) = true →
      json_Decode_Match (ResBody res) = (data, Some jsonErr) →
      match_returns (inl res) (None, 0, Some jsonErr)
  | match_decoded res data :
      is2xx (StatusCode res) = true →
      json_Decode_Match (ResBody res) = (data, None) →
      match_returns (inl res) (Some data, StatusCode res, None).

(** What [player] ([field] is ["email"]) and [championship] ([field] is
    ["title"]) return for what came back from the network. *)
Inductive text_returns (field : string) :
    Response + error → string * Z * option error → Prop :=
  | text_transport_error err :
      text_returns field (inr err) ("", 0, Some err)
  | text_non_2xx res :
      is2xx (StatusCode res) = false →
      text_returns field (inl res) ("", StatusCode res, Some (errors_New (Status res)))
  | text_unreadable res readErr :
      is2xx (StatusCode res) = true →
      failure (ResBody res) = Some readErr →
      text_returns field (inl res) ("", StatusCode res, Some readErr)
  | text_undecodable res data jsonErr :
      is2xx (StatusCode res) = true →
      failure (ResBody res) = None →
      json_Unmarshal_map (content (ResBody res)) = (data, Some jsonErr) →
      text_returns field (inl res) ("", StatusCode res, Some jsonErr)
  | text_decoded res data :
      is2xx (StatusCode res) = true →
      failure (ResBody res) = None →
      json_Unmarshal_map (content (ResBody res)) = (data, None) →
      text_returns field (inl res) (default "" (data !! field), StatusCode res, None).

(** A run of an upstream call: with an endpoint that is not a URL the call
    panics before anything is sent; otherwise exactly one request goes out,
    and the call returns. *)
Inductive call_run {A : Type} (returns : Response + error → A → Prop)
    ctx key st : Res A * St → Prop :=
  | call_panics err reason :
      url_Parse (os_Getenv key) = Some err →
      call_run returns ctx key st (Panic reason, st)
  | call_returns out w a :
      url_Parse (os_Getenv key) = None →
      transport (outbound ctx key) (world st) = (out, w) →
      returns out a →
      call_run returns ctx key st (Val a, record st (outbound ctx key) out w).

(** The handler state after [c.JSON]. *)
Definition respond st (code : Z) (body : json) : St :=
  {| world := world st; exchanges := exchanges st; written := Some (code, body) |}.

(** The request passes both gates of [CreateBet]: the content type is the
    expected one and the body decodes. *)
Definition accepted ctx : Prop :=
  Header_Get (ReqHeader (Context_Request ctx)) "Content-Type" = "application/json" ∧
  ∃ bet, json_Decode_Bet (ReqBody (Context_Request ctx)) = (bet, None).

(** Every way [CreateBet] can go, in the order of its text. *)
Inductive CreateBet_run ctx st : Res (option HTTPError) * St → Prop :=
  | run_unsupported_media_type :
      Header_Get (ReqHeader (Context_Request ctx)) "Content-Type" ≠ "application/json" →
      CreateBet_run ctx st
        (Val (Some (echo_NewHTTPError http_StatusUnsupportedMediaType [])), st)
  | run_undecodable_body bet err :
      Header_Get (ReqHeader (Context_Request ctx)) "Content-Type" = "application/json" →
      json_Decode_Bet (ReqBody (Context_Request ctx)) = (bet, Some err) →
      CreateBet_run ctx st
        (Val (Some (echo_NewHTTPError http_StatusInternalServerError
                      [anyFunc (λ _, error_Error err)])), st)
  | run_match_panics reason :
      accepted ctx →
      match_ ctx st = (Panic reason, st) →
      CreateBet_run ctx st (Panic reason, st)
  | run_player_panics t1 s1 reason :
      accepted ctx →
      match_ ctx st = (Val t1, s1) →
      player ctx s1 = (Panic reason, s1) →
      CreateBet_run ctx st (Panic reason, s1)
  | run_championship_panics t1 s1 t2 s2 reason :
      accepted ctx →
      match_ ctx st = (Val t1, s1) →
      player ctx s1 = (Val t2, s2) →
      championship ctx s2 = (Panic reason, s2) →
      CreateBet_run ctx st (Panic reason, s2)
  | run_unavailable m ms me s1 p ps pe s2 c cs ce s3 :
      accepted ctx →
      match_ ctx st = (Val (m, ms, me), s1) →
      player ctx s1 = (Val (p, ps, pe), s2) →
      championship ctx s2 = (Val (c, cs, ce), s3) →
      hasError [me; pe; ce] = true →
      CreateBet_run ctx st
        (Val None,
         respond s3 http_StatusServiceUnavailable
           (marshal_Error {| Errors := {[ "players" := ps;
                                           "matches" := ms;
                                           "championships" := cs ]} |}))
  | run_created data ms s1 p ps s2 c cs s3 :
      accepted ctx →
      match_ ctx st = (Val (Some data, ms, None), s1) →
      player ctx s1 = (Val (p, ps, None), s2) →
      championship ctx s2 = (Val (c, cs, None), s3) →
      CreateBet_run ctx st
        (Val None,
         respond s3 http_StatusCreated
           (marshal_Bet {| Bet_HomeTeamScore := "2";
                           Bet_AwayTeamScore := "3";
                           Bet_Championship := c;
                           Bet_Match := Match_HomeTeam data +:+ " 2x3 " +:+ Match_AwayTeam data;
                           Bet_Email := p |})).

(** The upstream calls one run of [CreateBet] makes from state [st]. *)
Definition upstream_calls ctx st : list Exchange :=
  drop (length (exchanges st)) (exchanges (CreateBet ctx st).2).

(** The calls of a run that got through all three, with what each call
    returned to [CreateBet]. *)
Record three_calls ctx st (x1 x2 x3 : Exchange) : Prop := {
  tc_accepted : accepted ctx;
  tc_results : ∃ m ms me s1 p ps pe s2 c cs ce s3,
    match_ ctx st = (Val (m, ms, me), s1) ∧
    player ctx s1 = (Val (p, ps, pe), s2) ∧
    championship ctx s2 = (Val (c, cs, ce), s3) ∧
    exchanges s3 = exchanges st ++ [x1; x2; x3] ∧
    match_returns x1.2 (m, ms, me) ∧
    text_returns "email" x2.2 (p, ps, pe) ∧
    text_returns "title" x3.2 (c, cs, ce)
}.

(** An upstream call came back with a transport error or a status that is
    not 2xx. *)
Definition upstream_failed (out : Response + error) : Prop :=
  match out with
  | inr _ => True
  | inl res => is2xx (StatusCode res) = false
  end.

(** The status a call hands to [CreateBet] for what came back: 0 without
    a response; the status of the response when it is not 2xx, and when the
    call returns a nil error. *)
Definition reports (out : Response + error) (status : Z) (err : option error) : Prop :=
  match out with
  | inr _ => status = 0
  | inl res => is2xx (StatusCode res) = false ∨ err = None → status = StatusCode res
  end.

(** A 2xx answer whose body decodes into [data] (the match service) or
    into the map [fields] (the player and championship services). *)
Definition match_answer (out : Response + error) (data : Match) : Prop :=
  ∃ res, out = inl res ∧ is2xx (StatusCode res) = true ∧
         json_Decode_Match (ResBody res) = (data, None).

Definition map_answer (out : Response + error) (fields : gmap string string) : Prop :=
  ∃ res, out = inl res ∧ is2xx (StatusCode res) = true ∧
         failure (ResBody res) = None ∧
         json_Unmarshal_map (content (ResBody res)) = (fields, None).

(** The three call sites under one signature. *)
Inductive site : Type := Matches | Players | Championships.

Inductive payload : Type :=
  | MatchPointer (m : option Match)
  | Text (s : string).

Definition call (d : site) ctx : M (payload * Z * option error) :=
  match d with
  | Matches => '(m, status, err) ← match_ ctx; mret (MatchPointer m, status, err)
  | Players => '(p, status, err) ← player ctx; mret (Text p, status, err)
  | Championships => '(c, status, err) ← championship ctx; mret (Text c, status, err)
  end.

(** What a call site returns as payload next to an error. *)
Definition empty_payload (d : site) : payload :=
  match d with
  | Matches => MatchPointer None
  | Players | Championships => Text ""
  end.

(** The body of [res] is read in full but does not decode at site [d]. *)
Definition undecodable (d : site) (res : Response) (jsonErr : error) : Prop :=
  match d with
  | Matches => ∃ data, json_Decode_Match (ResBody res) = (data, Some jsonErr)
  | Players | Championships =>
      failure (ResBody res) = None ∧
      ∃ data, json_Unmarshal_map (content (ResBody res)) = (data, Some jsonErr)
  end.

(** The configuration key of each call site, and what the site returns for
    what came back from the network. *)
Definition site_key (d : site) : string :=
  match d with
  | Matches => "MATCH_SVC"
  | Players => "PLAYER_SVC"
  | Championships => "CHAMPIONSHIP_SVC"
  end.

Definition site_returns (d : site) (out : Response + error)
    (t : payload * Z * option error) : Prop :=
  match d with
  | Matches => ∃ m, t.1.1 = MatchPointer m ∧ match_returns out (m, t.1.2, t.2)
  | Players => ∃ p, t.1.1 = Text p ∧ text_returns "email" out (p, t.1.2, t.2)
  | Championships => ∃ c, t.1.1 = Text c ∧ text_returns "title" out (c, t.1.2, t.2)
  end.

(** The key of each call site in the [errors] map of [CreateBet], and its
    exchange among the three of a run. *)
Definition site_name (d : site) : string :=
  match d with
  | Matches => "matches"
  | Players => "players"
  | Championships => "championships"
  end.

Definition site_exchange (d : site) (x1 x2 x3 : Exchange) : Exchange :=
  match d with
  | Matches => x1
  | Players => x2
  | Championships => x3
  end.

(** The body of [res] is read and decodes at site [d], which makes the
    payload [pl] of it. *)
Definition decoded (d : site) (res : Response) (pl : payload) : Prop :=
  match d with
  | Matches =>
      ∃ data, json_Decode_Match (ResBody res) = (data, None) ∧
              pl = MatchPointer (Some data)
  | Players =>
      failure (ResBody res) = None ∧
      ∃ fields, json_Unmarshal_map (content (ResBody res)) = (fields, None) ∧
                pl = Text (default "" (fields !! "email"))
  | Championships =>
      failure (ResBody res) = None ∧
      ∃ fields, json_Unmarshal_map (content (ResBody res)) = (fields, None) ∧
                pl = Text (default "" (fields !! "title"))
  end.

(** The same request context with another body. *)
Definition with_request_body ctx (b : Body) : Context :=
  {| Context_Request := with_Body (Context_Request ctx) b |}.

End Program.

Arguments Val {A} a.
Arguments Panic {A} reason.


(** * A platform to run the handlers on

    Upstream answers are looked up by URL, and the decoders read flat JSON
    objects whose members are strings or integers, which is all the
    scenarios below send. *)

Module Fixture.

Inductive value : Type :=
  | VString (s : string)
  | VNumber (digits : string).

Definition quote : string := String (ascii_of_N 34) "".

Definition value_text (v : value) : string :=
  match v with
  | VString s => quote +:+ s +:+ quote
  | VNumber d => d
  end.

Fixpoint members_text (ms : list (string * value)) : string :=
  match ms with
  | [] => ""
  | [(k, v)] => quote +:+ k +:+ quote +:+ ":" +:+ value_text v
  | (k, v) :: rest => quote +:+ k +:+ quote +:+ ":" +:+ value_text v +:+ "," +:+ members_text rest
  end.

(** The text of a flat object, as a service would send it. *)
Definition object_text (ms : list (string * value)) : string :=
  "{" +:+ members_text ms +:+ "}".

(** Where the reader is in the text. *)
Inductive position : Type :=
  | AtStart
  | AfterOpen
  | InKey (k : string)
  | InKeyEscape (k : string)
  | AfterKey (k : string)
  | BeforeValue (k : string)
  | InString (k v : string)
  | InStringEscape (k v : string)
  | InNumber (k d : string)
  | AfterValue
  | AfterComma
  | AtEnd.

Definition isSpace (c : ascii) : bool :=
  existsb (N.eqb (N_of_ascii c)) [32; 9; 10; 13]%N.

Definition isQuote (c : ascii) : bool := (N_of_ascii c =? 34)%N.

Definition isNumberStart (c : ascii) : bool :=
  textproto.isDigit c || Ascii.eqb c "-".

Definition unescape (c : ascii) : option ascii :=
  if isQuote c then Some c
  else if Ascii.eqb c "\" then Some c
  else if Ascii.eqb c "/" then Some c
  else if Ascii.eqb c "n" then Some (ascii_of_N 10)
  else if Ascii.eqb c "t" then Some (ascii_of_N 9)
  else if Ascii.eqb c "r" then Some (ascii_of_N 13)
  else None.

Definition snoc (s : string) (c : ascii) : string := s +:+ String c "".

Fixpoint read (text : string) (at_ : position) (seen : list (string * value))
  : option (list (string * value)) :=
  match text with
  | EmptyString => if at_ is AtEnd then Some seen else None
  | String c rest =>
      match at_ with
      | AtStart =>
          if isSpace c then read rest AtStart seen
          else if Ascii.eqb c "{" then read rest AfterOpen seen
          else None
      | AfterOpen =>
          if isSpace c then read rest AfterOpen seen
          else if isQuote c then read rest (InKey "") seen
          else if Ascii.eqb c "}" then read rest AtEnd seen
          else None
      | InKey k =>
          if isQuote c then read rest (AfterKey k) seen
          else if Ascii.eqb c "\" then read rest (InKeyEscape k) seen
          else read rest (InKey (snoc k c)) seen
      | InKeyEscape k =>
          match unescape c with
          | Some c' => read rest (InKey (snoc k c')) seen
          | None => None
          end
      | AfterKey k =>
          if isSpace c then read rest (AfterKey k) seen
          else if Ascii.eqb c ":" then read rest (BeforeValue k) seen
          else None
      | BeforeValue k =>
          if isSpace c then read rest (BeforeValue k) seen
          else if isQuote c then read rest (InString k "") seen
          else if isNumberStart c then read rest (InNumber k (String c "")) seen
          else None
      | InString k v =>
          if isQuote c then read rest AfterValue (seen ++ [(k, VString v)])
          else if Ascii.eqb c "\" then read rest (InStringEscape k v) seen
          else read rest (InString k (snoc v c)) seen
      | InStringEscape k v =>
          match unescape c with
          | Some c' => read rest (InString k (snoc v c')) seen
          | None => None
          end
      | InNumber k d =>
          if textproto.isDigit c then read rest (InNumber k (snoc d c)) seen
          else if isSpace c then read rest AfterValue (seen ++ [(k, VNumber d)])
          else if Ascii.eqb c "," then read rest AfterComma (seen ++ [(k, VNumber d)])
          else if Ascii.eqb c "}" then read rest AtEnd (seen ++ [(k, VNumber d)])
          else None
      | AfterValue =>
          if isSpace c then read rest AfterValue seen
          else if Ascii.eqb c "," then read rest AfterComma seen
          else if Ascii.eqb c "}" then read rest AtEnd seen
          else None
      | AfterComma =>
          if isSpace c then read rest AfterComma seen
          else if isQuote c then read rest (InKey "") seen
          else None
      | AtEnd =>
          if isSpace c then read rest AtEnd seen else None
      end
  end.

Definition parse (text : string) : option (list (string * value)) :=
  read text AtStart [].

Definition syntaxError : error :=
  {| origin := FromJSON; text := "invalid character in JSON text" |}.

Definition typeError : error :=
  {| origin := FromJSON; text := "json: cannot unmarshal number into Go value of type string" |}.

(** The string under [name]: absent members leave the field empty, and a
    number where a string is expected is a type error. *)
Definition field (name : string) (ms : list (string * value)) : string * option error :=
  fold_left (λ acc kv,
               if String.eqb kv.1 name
               then match kv.2 with
                    | VString s => (s, acc.2)
                    | VNumber _ => (acc.1, Some typeError)
                    end
               else acc) ms ("", None).

Definition first_error (errs : list (option error)) : option error :=
  List.find (λ e, bool_decide (is_Some e)) errs ≫= id.

Definition decode_with {A : Type} (zero : A) (fill : list (string * value) → A * option error)
    (b : Body) : A * option error :=
  match parse (content b), failure b with
  | Some ms, _ => fill ms
  | None, Some readErr => (zero, Some readErr)
  | None, None => (zero, Some syntaxError)
  end.

Definition decode_Bet : Body → Bet * option error :=
  decode_with (mkBet "" "" "" "" "") (λ ms,
    let hs := field "homeTeamScore" ms in
    let as_ := field "awayTeamScore" ms in
    let ch := field "championship" ms in
    let ma := field "match" ms in
    let em := field "email" ms in
    (mkBet hs.1 as_.1 ch.1 ma.1 em.1, first_error [hs.2; as_.2; ch.2; ma.2; em.2])).

Definition decode_Match : Body → Match * option error :=
  decode_with (mkMatch "" "" "") (λ ms,
    let h := field "homeTeam" ms in
    let a := field "awayTeam" ms in
    let ch := field "championship" ms in
    (mkMatch h.1 a.1 ch.1, first_error [h.2; a.2; ch.2])).

Definition unmarshal_map (text : string) : gmap string string * option error :=
  match parse text with
  | None => (∅, Some syntaxError)
  | Some ms =>
      fold_left (λ acc kv,
                   match kv.2 with
                   | VString s => (<[kv.1 := s]> acc.1, acc.2)
                   | VNumber _ => (acc.1, Some typeError)
                   end) ms (∅, None)
  end.

Definition hasScheme (url : string) : bool :=
  String.prefix "http://" url || String.prefix "https://" url.

Definition parse_url (url : string) : option error :=
  if hasScheme url then None
  else Some {| origin := FromErrorsNew;
               text := "parse: first path segment in URL cannot contain colon" |}.

(** The world counts the requests served. *)
Definition platform (env : string → string) (upstream : string → Response + error)
  : Platform :=
  {| World := nat;
     os_Getenv := env;
     url_Parse := parse_url;
     transport := λ r served, (upstream (URL r), S served);
     json_Decode_Bet := decode_Bet;
     json_Decode_Match := decode_Match;
     json_Unmarshal_map := unmarshal_map |}.

Definition env (key : string) : string :=
  if String.eqb key "MATCH_SVC" then "http://matches/current"
  else if String.eqb key "PLAYER_SVC" then "http://players/me"
  else if String.eqb key "CHAMPIONSHIP_SVC" then "http://championships/current"
  else "".

Definition answer (code : Z) (text : string) : Response + error :=
  inl {| Status := pretty code +:+ " " +:+ http_StatusText code;
         StatusCode := code;
         ResHeader := {[ "Content-Type" := ["application/json"] ]};
         ResBody := {| content := text; failure := None |} |}.

Definition refused : Response + error :=
  inr {| origin := FromTransport; text := "dial tcp: connection refused" |}.

(** Upstream services by URL. *)
Definition services (matches players championships : Response + error)
    (url : string) : Response + error :=
  if String.eqb url "http://matches/current" then matches
  else if String.eqb url "http://players/me" then players
  else if String.eqb url "http://championships/current" then championships
  else refused.

Definition post (headers : Header) (text : string) : Context :=
  {| Context_Request :=
       {| Method := "POST"; URL := "/api/bets"; ReqHeader := headers;
          ReqBody := {| content := text; failure := None |} |} |}.

Definition json_headers : Header :=
  {[ "Content-Type" := ["application/json"];
     "Authorization" := ["Bearer t0k3n"];
     "X-Request-Id" := ["r-17"];
     "X-B3-Sampled" := [""];
     "Cookie" := ["session=1"] ]}.

Definition fresh (P : Platform) (w : @World P) : @St P :=
  {| world := w; exchanges := []; written := None |}.

Definition match_AB : Response + error :=
  answer 200 (object_text [("homeTeam", VString "A"); ("awayTeam", VString "B");
                           ("homeScore", VNumber "5"); ("awayScore", VNumber "0")]).
Definition player_xy : Response + error :=
  answer 200 (object_text [("email", VString "x@y.com")]).
Definition championship_League : Response + error :=
  answer 200 (object_text [("title", VString "League")]).

(** The scenarios. *)

Definition all_up : Platform :=
  platform env (services match_AB player_xy championship_League).

Definition match_down : Platform :=
  platform env (services (answer 500 "boom") player_xy championship_League).

Definition players_unreachable : Platform :=
  platform env (services match_AB refused championship_League).

Definition all_garbled : Platform :=
  platform env (services (answer 200 "<html>") (answer 200 "<html>")
                  (answer 200 "<html>")).

Definition members_missing : Platform :=
  platform env (services match_AB (answer 200 "{}") (answer 200 "{}")).

(** The player endpoint is configured as a host and port without a scheme,
    which [url.Parse] rejects. *)
Definition env_without_scheme (key : string) : string :=
  if String.eqb key "PLAYER_SVC" then "127.0.0.1:8080" else env key.

Definition player_misconfigured : Platform :=
  platform env_without_scheme (services (answer 500 "boom") player_xy championship_League).

(** The connection to the player service breaks while the body is read. *)
Definition unexpectedEOF : error := {| origin := FromIO; text := "unexpected EOF" |}.

Definition cut_off : Response :=
  {| Status := "200 OK";
     StatusCode := 200;
     ResHeader := {[ "Content-Type" := ["application/json"] ]};
     ResBody := {| content := "{"; failure := Some unexpectedEOF |} |}.

Definition player_cut_off : Platform :=
  platform env (services match_AB (inl cut_off) championship_League).

Definition bet_request : Context := post json_headers "{}".

(** Another submission under the same headers. *)
Definition other_bet : Body :=
  {| content := object_text [("homeTeamScore", VString "9"); ("email", VString "z@y.com")];
     failure := None |}.

(** An outbound request that already carries headers. *)
Definition prepared : Request :=
  {| Method := "GET"; URL := "http://players/me";
     ReqHeader := {[ "Authorization" := ["Basic old"; "Basic older"];
                     "X-B3-Sampled" := ["1"];
                     "Accept" := ["application/json"] ]};
     ReqBody := NoBody |}.

Definition charset_request : Context :=
  post {[ "Content-Type" := ["application/json; charset=utf-8"] ]} "{}".

Definition text_request : Context :=
  post {[ "Content-Type" := ["text/plain"] ]} "{}".

Definition truncated_request : Context := post json_headers "{".

(** The exchange of call site [d] on [ctx] when the service answers [out]. *)
Definition sent (P : Platform) (ctx : Context) (d : site) (out : Response + error)
  : Exchange :=
  (@outbound P ctx (site_key d), out).

(** What the services of [services m p c] answer to call site [d]. *)
Definition site_answer (d : site) (m p c : Response + error) : Response + error :=
  match d with
  | Matches => m
  | Players => p
  | Championships => c
  end.

End Fixture.

(** * Properties *)

(** ** [hasError] *)

Lemma hasError_fold (errs : list (option error)) (r : bool) :
  fold_left (λ r err, if err is Some _ then true else r) errs r
  = r || existsb (λ err, if err is Some _ then true else false) errs.
Proof.
  revert r. induction errs as [|[e|] errs IH]; intros r; simpl.
  - by rewrite orb_false_r.
  - rewrite IH. by destruct r.
  - by rewrite IH.
Qed.

Lemma hasError_true (errs : list (option error)) :
  hasError errs = true ↔ ∃ e, Some e ∈ errs.
Proof.
  unfold hasError. rewrite hasError_fold. simpl. rewrite existsb_exists. split.
  - intros ([e|] & Hin & Hb); [|done]. exists e. by apply list_elem_of_In.
  - intros (e & Hin). exists (Some e). split; [by apply list_elem_of_In | done].
Qed.

Lemma hasError_false (errs : list (option error)) :
  hasError errs = false ↔ ∀ err, err ∈ errs → err = None.
Proof.
  split.
  - intros Hf [e|] Hin; [|done].
    assert (hasError errs = true) by (apply hasError_true; eauto). congruence.
  - intros Hall. destruct (hasError errs) eqn:E; [|done].
    apply hasError_true in E as (e & Hin). by apply Hall in Hin.
Qed.

Lemma hasError_three (a b c : option error) :
  hasError [a; b; c] = false ↔ a = None ∧ b = None ∧ c = None.
Proof. destruct a, b, c; cbn; (split; [intros ?|intros (?&?&?)]); try done. Qed.

(** ** [is2xx] *)

Lemma is2xx_true (status : Z) : is2xx status = true ↔ 200 <= status < 300.
Proof. unfold is2xx. rewrite andb_true_iff. lia. Qed.

Lemma is2xx_false (status : Z) : is2xx status = false ↔ status < 200 ∨ status >= 300.
Proof. unfold is2xx. rewrite andb_false_iff. lia. Qed.

(** ** Header forwarding *)

Lemma Header_Get_first_value (h : Header) (key : string) :
  Header_Get h key = first_value h (textproto.CanonicalMIMEHeaderKey key).
Proof. reflexivity. Qed.

Lemma copyHeader_lookup (inbound out : Header) (th k : string) :
  copyHeader inbound out th !! k =
    if decide (textproto.CanonicalMIMEHeaderKey th = k ∧ first_value inbound k ≠ "")
    then Some [first_value inbound k]
    else out !! k.
Proof.
  unfold copyHeader, Header_Set. rewrite Header_Get_first_value.
  destruct (String.eqb_spec (first_value inbound (textproto.CanonicalMIMEHeaderKey th)) "")
    as [He|Hne]; simpl.
  - case_decide as Hd; [|done]. destruct Hd as [<- Hd]. done.
  - destruct (decide (textproto.CanonicalMIMEHeaderKey th = k)) as [<-|Hk].
    + rewrite lookup_insert_eq. by rewrite decide_True.
    + rewrite lookup_insert_ne by done. rewrite decide_False; [done | by intros [? _]].
Qed.

(** A key of the outbound map after the loop: copied if some listed header
    has that canonical key and a non-empty inbound value, else as before. *)
Lemma forwarded_lookup (inbound : Header) (ths : list string) (out : Header) (k : string) :
  forwarded inbound out ths !! k =
    if decide (first_value inbound k ≠ "" ∧
               Exists (λ th, textproto.CanonicalMIMEHeaderKey th = k) ths)
    then Some [first_value inbound k]
    else out !! k.
Proof.
  unfold forwarded. revert out.
  induction ths as [|th ths IH]; intros out; simpl.
  - rewrite decide_False; [done|]. intros [_ Hex]. by apply Exists_nil in Hex.
  - rewrite IH, copyHeader_lookup.
    repeat case_decide; try done; exfalso;
      repeat match goal with
             | H : context [Exists _ (_ :: _)] |- _ => setoid_rewrite Exists_cons in H
             end; tauto.
Qed.

(** ** Runs of the upstream calls *)

Section Runs.

Context `{P : Platform}.

Implicit Types (ctx : Context) (st : St) (key : string).

Lemma with_Header_same (r : Request) : with_Header r (ReqHeader r) = r.
Proof. by destruct r. Qed.

(** On a request that is not [nil], [forwardHeaders] never panics, leaves
    the handler state alone and only changes the header map. *)
Lemma forwardHeaders_range_Some ctx (ths : list string) (r : Request) st :
  forwardHeaders_range ctx ths (Some r) st =
    (Val (Some (with_Header r
                  (forwarded (ReqHeader (Context_Request ctx)) (ReqHeader r) ths))), st).
Proof.
  revert r. induction ths as [|th ths IH]; intros r; simpl.
  - by rewrite with_Header_same.
  - unfold forwarded in *. simpl. unfold copyHeader at 2.
    destruct (negb _); [|apply IH]. rewrite IH. reflexivity.
Qed.

Lemma forwardHeaders_Some ctx (r : Request) st :
  forwardHeaders ctx (Some r) st =
    (Val (Some (with_Header r
                  (forwarded (ReqHeader (Context_Request ctx)) (ReqHeader r)
                     incomingHeaders))), st).
Proof. apply forwardHeaders_range_Some. Qed.

(** On [nil] it either panics or hands [nil] on; the state is untouched. *)
Lemma forwardHeaders_range_None ctx (ths : list string) st :
  forwardHeaders_range ctx ths None st = (Val None, st) ∨
  forwardHeaders_range ctx ths None st = (Panic nil_dereference, st).
Proof.
  induction ths as [|th ths IH]; simpl; [by left|].
  destruct (negb _); [by right | apply IH].
Qed.

Lemma http_NewRequest_GET (url : string) :
  http_NewRequest url_Parse "GET" url =
    match url_Parse url with
    | Some err => (None, Some err)
    | None => (Some {| Method := "GET"; URL := url; ReqHeader := ∅; ReqBody := NoBody |},
               None)
    end.
Proof. reflexivity. Qed.

Ltac start_call :=
  rewrite http_NewRequest_GET;
  match goal with
  | |- context [url_Parse ?u] => destruct (url_Parse u) as [perr|] eqn:Hurl
  end;
  unfold mbind, M_bind.

Ltac nil_call ctx st :=
  destruct (forwardHeaders_range_None ctx incomingHeaders st) as [Hf|Hf];
  unfold forwardHeaders; rewrite Hf; simpl; eapply call_panics; eassumption.

Ltac sent_call :=
  rewrite forwardHeaders_Some; simpl;
  match goal with
  | |- context [transport ?q ?w] => destruct (transport q w) as [out w'] eqn:Htr
  end.

Theorem match_run ctx st :
  call_run match_returns ctx "MATCH_SVC" st (match_ ctx st).
Proof.
  unfold match_. start_call; [nil_call ctx st|]. sent_call.
  destruct out as [res|err].
  - destruct (is2xx (StatusCode res)) eqn:H2; simpl.
    + destruct (json_Decode_Match (ResBody res)) as [data [jsonErr|]] eqn:Hdec.
      * eapply call_returns; eauto. eapply match_undecodable; eauto.
      * eapply call_returns; eauto. eapply match_decoded; eauto.
    + eapply call_returns; eauto. by constructor.
  - eapply call_returns; eauto. constructor.
Qed.

Theorem player_run ctx st :
  call_run (text_returns "email") ctx "PLAYER_SVC" st (player ctx st).
Proof.
  unfold player. start_call; [nil_call ctx st|]. sent_call.
  destruct out as [res|err].
  - destruct (is2xx (StatusCode res)) eqn:H2; simpl.
    + destruct (failure (ResBody res)) as [readErr|] eqn:Hread.
      { eapply call_returns; eauto. by eapply text_unreadable. }
      destruct (json_Unmarshal_map (content (ResBody res))) as [data [jsonErr|]] eqn:Hdec.
      * eapply call_returns; eauto. by eapply text_undecodable.
      * eapply call_returns; eauto. by eapply text_decoded.
    + eapply call_returns; eauto. by constructor.
  - eapply call_returns; eauto. constructor.
Qed.

Theorem championship_run ctx st :
  call_run (text_returns "title") ctx "CHAMPIONSHIP_SVC" st (championship ctx st).
Proof.
  unfold championship. start_call; [nil_call ctx st|]. sent_call.
  destruct out as [res|err].
  - destruct (is2xx (StatusCode res)) eqn:H2; simpl.
    + destruct (failure (ResBody res)) as [readErr|] eqn:Hread.
      { eapply call_returns; eauto. by eapply text_unreadable. }
      destruct (json_Unmarshal_map (content (ResBody res))) as [data [jsonErr|]] eqn:Hdec.
      * eapply call_returns; eauto. by eapply text_undecodable.
      * eapply call_returns; eauto. by eapply text_decoded.
    + eapply call_returns; eauto. by constructor.
  - eapply call_returns; eauto. constructor.
Qed.

(** ** Runs of [CreateBet] *)

Lemma call_run_state {A} (returns : Response + error → A → Prop) ctx key st reason s :
  call_run returns ctx key st (Panic reason, s) → s = st.
Proof. by inversion 1. Qed.

Lemma match_returns_payload out m ms :
  match_returns out (m, ms, None) → ∃ data, m = Some data.
Proof. inversion 1; eauto. Qed.

Theorem CreateBet_runs ctx st : CreateBet_run ctx st (CreateBet ctx st).
Proof.
  unfold CreateBet.
  destruct (String.eqb_spec
              (Header_Get (ReqHeader (Context_Request ctx)) "Content-Type")
              "application/json") as [Hct|Hct]; simpl.
  2: { by apply run_unsupported_media_type. }
  destruct (json_Decode_Bet (ReqBody (Context_Request ctx))) as [bet [err|]] eqn:Hbody.
  { by eapply run_undecodable_body. }
  assert (accepted ctx) as Hacc by (split; eauto).
  unfold mbind, M_bind.
  pose proof (match_run ctx st) as H1.
  destruct (match_ ctx st) as [[[[m ms] me]|reason] s1] eqn:E1.
  2: { apply call_run_state in H1 as ->. by apply run_match_panics. }
  pose proof (player_run ctx s1) as H2.
  destruct (player ctx s1) as [[[[p ps] pe]|reason] s2] eqn:E2.
  2: { apply call_run_state in H2 as ->. by eapply run_player_panics. }
  pose proof (championship_run ctx s2) as H3.
  destruct (championship ctx s2) as [[[[c cs] ce]|reason] s3] eqn:E3.
  2: { apply call_run_state in H3 as ->. by eapply run_championship_panics. }
  destruct (hasError [me; pe; ce]) eqn:Herr.
  { by eapply run_unavailable. }
  apply hasError_three in Herr as (-> & -> & ->).
  inversion H1 as [| ? ? ? _ _ Hret]; subst.
  apply match_returns_payload in Hret as [data ->].
  simpl. by eapply run_created.
Qed.

(** ** The upstream calls of a run *)

Lemma call_run_Val {A} (returns : Response + error → A → Prop) ctx key st (a : A) s :
  call_run returns ctx key st (Val a, s) →
  ∃ out w, s = record st (outbound ctx key) out w ∧ returns out a.
Proof. inversion 1; eauto. Qed.

Lemma match_Val ctx st t s :
  match_ ctx st = (Val t, s) →
  ∃ out w, s = record st (outbound ctx "MATCH_SVC") out w ∧ match_returns out t.
Proof. intros E. pose proof (match_run ctx st) as H. rewrite E in H. by apply call_run_Val. Qed.

Lemma player_Val ctx st t s :
  player ctx st = (Val t, s) →
  ∃ out w, s = record st (outbound ctx "PLAYER_SVC") out w ∧ text_returns "email" out t.
Proof. intros E. pose proof (player_run ctx st) as H. rewrite E in H. by apply call_run_Val. Qed.

Lemma championship_Val ctx st t s :
  championship ctx st = (Val t, s) →
  ∃ out w, s = record st (outbound ctx "CHAMPIONSHIP_SVC") out w ∧
           text_returns "title" out t.
Proof.
  intros E. pose proof (championship_run ctx st) as H. rewrite E in H.
  by apply call_run_Val.
Qed.

Lemma drop_own_length {A} (l k : list A) : drop (length l) (l ++ k) = k.
Proof. by rewrite drop_app_length. Qed.

Lemma upstream_calls_of ctx st r s (l : list Exchange) :
  CreateBet ctx st = (r, s) → exchanges s = exchanges st ++ l → upstream_calls ctx st = l.
Proof. intros E Hl. unfold upstream_calls. rewrite E. simpl. rewrite Hl. apply drop_own_length. Qed.

(** A run makes no call, or the first one or two before a panic, or all
    three, always in the order match, player, championship. *)
Theorem upstream_calls_cases ctx st :
  upstream_calls ctx st = [] ∨
  (∃ o1, upstream_calls ctx st = [(outbound ctx "MATCH_SVC", o1)]) ∨
  (∃ o1 o2, upstream_calls ctx st =
              [(outbound ctx "MATCH_SVC", o1); (outbound ctx "PLAYER_SVC", o2)]) ∨
  (∃ o1 o2 o3,
     upstream_calls ctx st =
       [(outbound ctx "MATCH_SVC", o1); (outbound ctx "PLAYER_SVC", o2);
        (outbound ctx "CHAMPIONSHIP_SVC", o3)] ∧
     three_calls ctx st (outbound ctx "MATCH_SVC", o1) (outbound ctx "PLAYER_SVC", o2)
       (outbound ctx "CHAMPIONSHIP_SVC", o3)).
Proof.
  pose proof (CreateBet_runs ctx st) as Hrun.
  destruct (CreateBet ctx st) as [r s] eqn:E.
  inversion Hrun as
    [ Hct | bet err Hct Hbody | reason Hacc E1
    | t1 s1 reason Hacc E1 E2 | t1 s1 t2 s2 reason Hacc E1 E2 E3
    | m ms me s1 p ps pe s2 c cs ce s3 Hacc E1 E2 E3 Herr
    | data ms s1 p ps s2 c cs s3 Hacc E1 E2 E3 ]; subst.
  - left. eapply upstream_calls_of; [done|]. by rewrite app_nil_r.
  - left. eapply upstream_calls_of; [done|]. by rewrite app_nil_r.
  - left. eapply upstream_calls_of; [done|]. by rewrite app_nil_r.
  - right. left. apply match_Val in E1 as (o1 & w1 & -> & _).
    exists o1. eapply upstream_calls_of; done.
  - right. right. left.
    apply match_Val in E1 as (o1 & w1 & -> & _).
    apply player_Val in E2 as (o2 & w2 & -> & _).
    exists o1, o2. eapply upstream_calls_of; [done|]. simpl. by rewrite <- app_assoc.
  - right. right. right.
    pose proof E1 as E1'. pose proof E2 as E2'. pose proof E3 as E3'.
    apply match_Val in E1' as (o1 & w1 & -> & R1).
    apply player_Val in E2' as (o2 & w2 & -> & R2).
    apply championship_Val in E3' as (o3 & w3 & -> & R3).
    exists o1, o2, o3.
    assert (exchanges (record (record (record st (outbound ctx "MATCH_SVC") o1 w1)
                                 (outbound ctx "PLAYER_SVC") o2 w2)
                         (outbound ctx "CHAMPIONSHIP_SVC") o3 w3)
            = exchanges st ++ [(outbound ctx "MATCH_SVC", o1);
                               (outbound ctx "PLAYER_SVC", o2);
                               (outbound ctx "CHAMPIONSHIP_SVC", o3)]) as Hex.
    { simpl. by rewrite <- !app_assoc. }
    split; [by eapply upstream_calls_of|].
    split; [done|]. repeat eexists; eauto.
  - right. right. right.
    pose proof E1 as E1'. pose proof E2 as E2'. pose proof E3 as E3'.
    apply match_Val in E1' as (o1 & w1 & -> & R1).
    apply player_Val in E2' as (o2 & w2 & -> & R2).
    apply championship_Val in E3' as (o3 & w3 & -> & R3).
    exists o1, o2, o3.
    assert (exchanges (record (record (record st (outbound ctx "MATCH_SVC") o1 w1)
                                 (outbound ctx "PLAYER_SVC") o2 w2)
                         (outbound ctx "CHAMPIONSHIP_SVC") o3 w3)
            = exchanges st ++ [(outbound ctx "MATCH_SVC", o1);
                               (outbound ctx "PLAYER_SVC", o2);
                               (outbound ctx "CHAMPIONSHIP_SVC", o3)]) as Hex.
    { simpl. by rewrite <- !app_assoc. }
    split; [by eapply upstream_calls_of|].
    split; [done|]. repeat eexists; eauto.
Qed.

Lemma upstream_calls_three ctx st x1 x2 x3 :
  upstream_calls ctx st = [x1; x2; x3] → three_calls ctx st x1 x2 x3.
Proof.
  intros H.
  destruct (upstream_calls_cases ctx st)
    as [H0 | [(o1 & H1) | [(o1 & o2 & H2) | (o1 & o2 & o3 & H3 & Htc)]]];
    rewrite H in *; try discriminate.
  by injection H3 as -> -> ->.
Qed.

(** What [CreateBet] does once the three calls have returned. *)
Lemma CreateBet_aggregate ctx st m ms me s1 p ps pe s2 c cs ce s3 :
  accepted ctx →
  match_ ctx st = (Val (m, ms, me), s1) →
  player ctx s1 = (Val (p, ps, pe), s2) →
  championship ctx s2 = (Val (c, cs, ce), s3) →
  CreateBet ctx st =
    if hasError [me; pe; ce]
    then (Val None,
          respond s3 http_StatusServiceUnavailable
            (marshal_Error {| Errors := {[ "players" := ps;
                                            "matches" := ms;
                                            "championships" := cs ]} |}))
    else match m with
         | None => (Panic nil_dereference, s3)
         | Some data =>
             (Val None,
              respond s3 http_StatusCreated
                (marshal_Bet {| Bet_HomeTeamScore := "2";
                                Bet_AwayTeamScore := "3";
                                Bet_Championship := c;
                                Bet_Match := Match_HomeTeam data +:+ " 2x3 " +:+
                                             Match_AwayTeam data;
                                Bet_Email := p |}))
         end.
Proof.
  intros [Hct [bet Hbody]] E1 E2 E3. unfold CreateBet.
  rewrite Hct, Hbody. simpl. unfold mbind, M_bind. rewrite E1, E2, E3.
  destruct (hasError [me; pe; ce]); [done|]. by destruct m.
Qed.

End Runs.

(** ** The encoder *)

Lemma marshal_Error_three (ps ms cs : Z) :
  marshal_Error {| Errors := {[ "players" := ps; "matches" := ms; "championships" := cs ]} |}
  = JObject [("errors", JObject [("championships", JNumber cs);
                                  ("matches", JNumber ms);
                                  ("players", JNumber ps)])].
Proof. reflexivity. Qed.

(** * The handlers *)

Section Handlers.

Context `{P : Platform}.

Implicit Types (ctx : Context) (st : St) (x : Exchange).

Lemma upstream_failed_match out m ms me :
  upstream_failed out → match_returns out (m, ms, me) → is_Some me ∧ reports out ms me.
Proof.
  intros Hf Hr. inversion Hr; subst; simpl in *; try congruence; split; eauto.
Qed.

Lemma upstream_failed_text field out p ps pe :
  upstream_failed out → text_returns field out (p, ps, pe) → is_Some pe ∧ reports out ps pe.
Proof.
  intros Hf Hr. inversion Hr; subst; simpl in *; try congruence; split; eauto.
Qed.

Lemma match_reports out m ms me : match_returns out (m, ms, me) → reports out ms me.
Proof. inversion 1; subst; simpl; try done; intros [?|?]; congruence. Qed.

Lemma text_reports field out p ps pe : text_returns field out (p, ps, pe) → reports out ps pe.
Proof. inversion 1; subst; simpl; done. Qed.

(** C1.  Take a request whose body decodes and a run of [CreateBet] on it
    that makes its three upstream calls.  If one of them came back with a
    transport error or a status that is not 2xx, the handler writes status
    503 and an [errors] map whose keys are exactly ["players"], ["matches"]
    and ["championships"], each with the status the call to that service
    returned: 0 when there was no response, the status of the response when
    it was not 2xx. *)
Theorem CreateBet_service_unavailable ctx st x1 x2 x3 :
  (∃ bet, json_Decode_Bet (ReqBody (Context_Request ctx)) = (bet, None)) →
  upstream_calls ctx st = [x1; x2; x3] →
  upstream_failed x1.2 ∨ upstream_failed x2.2 ∨ upstream_failed x3.2 →
  ∃ m ms me s1 p ps pe s2 c cs ce s3 (errors : gmap string Z),
    match_ ctx st = (Val (m, ms, me), s1) ∧
    player ctx s1 = (Val (p, ps, pe), s2) ∧
    championship ctx s2 = (Val (c, cs, ce), s3) ∧
    reports x1.2 ms me ∧ reports x2.2 ps pe ∧ reports x3.2 cs ce ∧
    CreateBet ctx st =
      (Val None, respond s3 http_StatusServiceUnavailable
                   (marshal_Error {| Errors := errors |})) ∧
    dom errors = {[ "players"; "matches"; "championships" ]} ∧
    errors !! "players" = Some ps ∧
    errors !! "matches" = Some ms ∧
    errors !! "championships" = Some cs.
Proof.
  intros _ Hcalls Hfailed.
  apply upstream_calls_three in Hcalls as [Hacc Hres].
  destruct Hres as (m & ms & me & s1 & p & ps & pe & s2 & c & cs & ce & s3 &
                    E1 & E2 & E3 & _ & R1 & R2 & R3).
  exists m, ms, me, s1, p, ps, pe, s2, c, cs, ce, s3,
    {[ "players" := ps; "matches" := ms; "championships" := cs ]}.
  assert (hasError [me; pe; ce] = true) as Herr.
  { apply hasError_true.
    destruct Hfailed as [Hf|[Hf|Hf]].
    - destruct (upstream_failed_match _ _ _ _ Hf R1) as [[e ->] _]. exists e. set_solver.
    - destruct (upstream_failed_text _ _ _ _ _ Hf R2) as [[e ->] _]. exists e. set_solver.
    - destruct (upstream_failed_text _ _ _ _ _ Hf R3) as [[e ->] _]. exists e. set_solver. }
  split_and!; try done.
  - by eapply match_reports.
  - by eapply text_reports.
  - by eapply text_reports.
  - rewrite (CreateBet_aggregate ctx st m ms me s1 p ps pe s2 c cs ce s3) by done.
    by rewrite Herr.
Qed.

Lemma match_answer_returns out data t :
  match_answer out data → match_returns out t → ∃ ms, t = (Some data, ms, None).
Proof.
  intros (res & -> & H2 & Hdec) Hr. inversion Hr; subst; try congruence.
  eexists. repeat f_equal. congruence.
Qed.

Lemma map_answer_returns field out fields t :
  map_answer out fields → text_returns field out t →
  ∃ status, t = (default "" (fields !! field), status, None).
Proof.
  intros (res & -> & H2 & Hread & Hdec) Hr. inversion Hr; subst; try congruence.
  eexists. repeat f_equal. congruence.
Qed.

(** A run whose three calls all came back 2xx with bodies that decode. *)
Lemma CreateBet_all_answers ctx st x1 x2 x3 data players champs :
  upstream_calls ctx st = [x1; x2; x3] →
  match_answer x1.2 data → map_answer x2.2 players → map_answer x3.2 champs →
  ∃ ms s1 ps s2 cs s3,
    match_ ctx st = (Val (Some data, ms, None), s1) ∧
    player ctx s1 = (Val (default "" (players !! "email"), ps, None), s2) ∧
    championship ctx s2 = (Val (default "" (champs !! "title"), cs, None), s3) ∧
    exchanges s3 = exchanges st ++ [x1; x2; x3] ∧
    CreateBet ctx st =
      (Val None,
       respond s3 http_StatusCreated
         (marshal_Bet {| Bet_HomeTeamScore := "2";
                         Bet_AwayTeamScore := "3";
                         Bet_Championship := default "" (champs !! "title");
                         Bet_Match := Match_HomeTeam data +:+ " 2x3 " +:+
                                      Match_AwayTeam data;
                         Bet_Email := default "" (players !! "email") |})).
Proof.
  intros Hcalls A1 A2 A3.
  apply upstream_calls_three in Hcalls as [Hacc Hres].
  destruct Hres as (m & ms & me & s1 & p & ps & pe & s2 & c & cs & ce & s3 &
                    E1 & E2 & E3 & Hex & R1 & R2 & R3).
  destruct (match_answer_returns _ _ _ A1 R1) as [ms' [= -> -> ->]].
  destruct (map_answer_returns _ _ _ _ A2 R2) as [ps' [= -> -> ->]].
  destruct (map_answer_returns _ _ _ _ A3 R3) as [cs' [= -> -> ->]].
  exists ms', s1, ps', s2, cs', s3. split_and!; try done.
  by rewrite (CreateBet_aggregate ctx st _ _ _ s1 _ _ _ s2 _ _ _ s3 Hacc E1 E2 E3).
Qed.

(** C2.  When the three upstream calls of a run all come back 2xx with
    bodies that decode, the handler writes status 201 and a [Bet] whose
    match field is the home team, [" 2x3 "] and the away team of the decoded
    match, whatever else the match payload held; whose scores are ["2"] and
    ["3"]; whose championship is the [title] of the championship answer
    and whose email is the [email] of the player answer. *)
Theorem CreateBet_created ctx st x1 x2 x3 data players champs :
  upstream_calls ctx st = [x1; x2; x3] →
  match_answer x1.2 data → map_answer x2.2 players → map_answer x3.2 champs →
  ∃ b,
    (CreateBet ctx st).1 = Val None ∧
    written (CreateBet ctx st).2 = Some (http_StatusCreated, marshal_Bet b) ∧
    http_StatusCreated = 201 ∧
    Bet_Match b = Match_HomeTeam data +:+ " 2x3 " +:+ Match_AwayTeam data ∧
    Bet_HomeTeamScore b = "2" ∧
    Bet_AwayTeamScore b = "3" ∧
    Bet_Championship b = default "" (champs !! "title") ∧
    Bet_Email b = default "" (players !! "email").
Proof.
  intros Hcalls A1 A2 A3.
  destruct (CreateBet_all_answers _ _ _ _ _ _ _ _ Hcalls A1 A2 A3)
    as (ms & s1 & ps & s2 & cs & s3 & _ & _ & _ & _ & ->).
  eexists. simpl. split_and!; reflexivity.
Qed.

(** ** One call site at a time *)

Lemma call_run_map {A B} (f : A → B) (returns : Response + error → A → Prop)
    (returns' : Response + error → B → Prop) ctx key st (rs : Res A * St) :
  (∀ out a, returns out a → returns' out (f a)) →
  call_run returns ctx key st rs →
  call_run returns' ctx key st
    (match rs.1 with Val a => Val (f a) | Panic reason => Panic reason end, rs.2).
Proof. intros Hf [err reason Hurl | out w a Hurl Htr Hr]; simpl; econstructor; eauto. Qed.

Theorem call_site_run (d : site) ctx st :
  call_run (site_returns d) ctx (site_key d) st (call d ctx st).
Proof.
  destruct d; simpl; unfold mbind, M_bind.
  - pose proof (call_run_map (λ t, (MatchPointer t.1.1, t.1.2, t.2))
                  match_returns (site_returns Matches) ctx "MATCH_SVC" st
                  (match_ ctx st)) as H.
    destruct (match_ ctx st) as [[[[m s] e]|reason] s1] eqn:E; simpl in H;
      apply H; try (rewrite <- E; apply match_run);
      intros out [[m' s'] e'] Hr; exists m'; done.
  - pose proof (call_run_map (λ t, (Text t.1.1, t.1.2, t.2))
                  (text_returns "email") (site_returns Players) ctx "PLAYER_SVC" st
                  (player ctx st)) as H.
    destruct (player ctx st) as [[[[m s] e]|reason] s1] eqn:E; simpl in H;
      apply H; try (rewrite <- E; apply player_run);
      intros out [[m' s'] e'] Hr; exists m'; done.
  - pose proof (call_run_map (λ t, (Text t.1.1, t.1.2, t.2))
                  (text_returns "title") (site_returns Championships) ctx
                  "CHAMPIONSHIP_SVC" st (championship ctx st)) as H.
    destruct (championship ctx st) as [[[[m s] e]|reason] s1] eqn:E; simpl in H;
      apply H; try (rewrite <- E; apply championship_run);
      intros out [[m' s'] e'] Hr; exists m'; done.
Qed.

(** A call whose run adds the exchange [(q, out)] returned what the site
    returns for [out]. *)
Lemma call_received (d : site) ctx st r st' q out :
  call d ctx st = (r, st') →
  exchanges st' = exchanges st ++ [(q, out)] →
  ∃ t, r = Val t ∧ q = outbound ctx (site_key d) ∧ site_returns d out t.
Proof.
  intros E Hex. pose proof (call_site_run d ctx st) as H. rewrite E in H.
  inversion H as [err reason Hurl | out' w a Hurl Htr Hr]; subst.
  - exfalso. apply (f_equal length) in Hex. rewrite length_app in Hex. simpl in Hex. lia.
  - simpl in Hex. apply app_inv_head in Hex. injection Hex as -> ->. eauto.
Qed.

(** C7.  A call that receives a response whose status is not 2xx returns
    that status, an error made from the status text of the response, and no
    payload: a nil match, an empty string. *)
Theorem call_non_2xx (d : site) ctx st r st' q res :
  call d ctx st = (r, st') →
  exchanges st' = exchanges st ++ [(q, inl res)] →
  StatusCode res < 200 ∨ StatusCode res >= 300 →
  is2xx (StatusCode res) = false ∧
  r = Val (empty_payload d, StatusCode res, Some (errors_New (Status res))).
Proof.
  intros E Hex Hs. apply is2xx_false in Hs. split; [done|].
  destruct (call_received d ctx st r st' q (inl res) E Hex) as ([[pl s] e] & -> & _ & Hr).
  destruct d; simpl in Hr; destruct Hr as (v & -> & Hr);
    inversion Hr; subst; simpl; congruence.
Qed.

(** C3, amended.  A call that receives a 2xx response whose body is read
    but does not decode returns the decode error and no payload; the status
    it returns is 0 in [match] and the status of the response in [player]
    and in [championship]. *)
Theorem call_undecodable (d : site) ctx st r st' q res jsonErr :
  call d ctx st = (r, st') →
  exchanges st' = exchanges st ++ [(q, inl res)] →
  is2xx (StatusCode res) = true →
  undecodable d res jsonErr →
  r = Val (empty_payload d,
           match d with Matches => 0 | Players | Championships => StatusCode res end,
           Some jsonErr) ∧
  StatusCode res ≠ 0.
Proof.
  intros E Hex H2 Hu.
  destruct (call_received d ctx st r st' q (inl res) E Hex) as ([[pl s] e] & -> & _ & Hr).
  assert (StatusCode res ≠ 0) as Hnz by (apply is2xx_true in H2; lia).
  destruct d; simpl in Hr, Hu; destruct Hr as (v & -> & Hr).
  - destruct Hu as [data Hu]. split; [|done].
    inversion Hr; subst; simpl; congruence.
  - destruct Hu as [Hread [data Hu]]. split; [|done].
    inversion Hr; subst; simpl; congruence.
  - destruct Hu as [Hread [data Hu]]. split; [|done].
    inversion Hr; subst; simpl; congruence.
Qed.

(** ** Fields left out of the encoded [Bet] *)

Lemma member_email (b : Bet) :
  member "email" (marshal_Bet b) =
    if String.eqb (Bet_Email b) "" then None else Some (JString (Bet_Email b)).
Proof.
  unfold member, marshal_Bet, omitempty. simpl.
  destruct (String.eqb (Bet_HomeTeamScore b) ""), (String.eqb (Bet_AwayTeamScore b) ""),
    (String.eqb (Bet_Championship b) ""), (String.eqb (Bet_Match b) ""),
    (String.eqb (Bet_Email b) ""); reflexivity.
Qed.

Lemma member_championship (b : Bet) :
  member "championship" (marshal_Bet b) =
    if String.eqb (Bet_Championship b) "" then None
    else Some (JString (Bet_Championship b)).
Proof.
  unfold member, marshal_Bet, omitempty. simpl.
  destruct (String.eqb (Bet_HomeTeamScore b) ""), (String.eqb (Bet_AwayTeamScore b) ""),
    (String.eqb (Bet_Championship b) ""), (String.eqb (Bet_Match b) ""),
    (String.eqb (Bet_Email b) ""); reflexivity.
Qed.

(** C10.  In a run whose three calls come back 2xx with bodies that decode,
    a player answer without an ["email"] member makes [player] return the
    empty string with a nil error, the handler still writes 201, and the
    encoded [Bet] has no ["email"] member; the same holds for a championship
    answer without a ["title"] member and the ["championship"] member. *)
Theorem CreateBet_missing_member ctx st x1 x2 x3 data players champs :
  upstream_calls ctx st = [x1; x2; x3] →
  match_answer x1.2 data → map_answer x2.2 players → map_answer x3.2 champs →
  ∃ ms s1 p ps s2 c cs s3 body,
    match_ ctx st = (Val (Some data, ms, None), s1) ∧
    player ctx s1 = (Val (p, ps, None), s2) ∧
    championship ctx s2 = (Val (c, cs, None), s3) ∧
    CreateBet ctx st = (Val None, respond s3 201 body) ∧
    (players !! "email" = None → p = "" ∧ member "email" body = None) ∧
    (champs !! "title" = None → c = "" ∧ member "championship" body = None).
Proof.
  intros Hcalls A1 A2 A3.
  destruct (CreateBet_all_answers _ _ _ _ _ _ _ _ Hcalls A1 A2 A3)
    as (ms & s1 & ps & s2 & cs & s3 & E1 & E2 & E3 & _ & E).
  eexists ms, s1, _, ps, s2, _, cs, s3, _.
  split_and!; [exact E1 | exact E2 | exact E3 | exact E | |].
  - intros ->. split; [done|]. by rewrite member_email.
  - intros ->. split; [done|]. by rewrite member_championship.
Qed.

(** ** The outbound headers *)

Lemma upstream_calls_outbound ctx st x :
  x ∈ upstream_calls ctx st →
  ∃ d : site, x.1 = outbound ctx (site_key d).
Proof.
  intros Hin.
  destruct (upstream_calls_cases ctx st)
    as [H0 | [(o1 & H1) | [(o1 & o2 & H2) | (o1 & o2 & o3 & H3 & _)]]];
    rewrite ?H0, ?H1, ?H2, ?H3 in Hin.
  - by apply elem_of_nil in Hin.
  - apply list_elem_of_singleton in Hin as ->. by exists Matches.
  - repeat (apply elem_of_cons in Hin as [->|Hin]); [by exists Matches|by exists Players|].
    by apply elem_of_nil in Hin.
  - repeat (apply elem_of_cons in Hin as [->|Hin]);
      [by exists Matches|by exists Players|by exists Championships|].
    by apply elem_of_nil in Hin.
Qed.

Lemma outbound_header ctx key :
  ReqHeader (outbound ctx key)
  = forwarded (ReqHeader (Context_Request ctx)) ∅ incomingHeaders.
Proof. reflexivity. Qed.

Lemma Exists_canonical (th : string) (ths : list string) :
  th ∈ ths →
  Exists (λ th', textproto.CanonicalMIMEHeaderKey th' = textproto.CanonicalMIMEHeaderKey th)
    ths.
Proof. intros Hin. apply Exists_exists. eauto. Qed.

(** C4.  Every request a run of [CreateBet] sends upstream carries each
    header of [incomingHeaders] whose inbound value is not empty, under the
    same name with that value and nothing else, carries no header of the
    list whose inbound value is empty, and carries no header outside the
    list.  Names are compared as [net/http] compares them, by canonical
    key. *)
Theorem forwardHeaders_allowlist ctx st x :
  x ∈ upstream_calls ctx st →
  let inbound := ReqHeader (Context_Request ctx) in
  let out := ReqHeader x.1 in
  (∀ th, th ∈ incomingHeaders → Header_Get inbound th ≠ "" →
         Header_Get out th = Header_Get inbound th ∧
         out !! textproto.CanonicalMIMEHeaderKey th = Some [Header_Get inbound th]) ∧
  (∀ th, th ∈ incomingHeaders → Header_Get inbound th = "" →
         out !! textproto.CanonicalMIMEHeaderKey th = None ∧ Header_Get out th = "") ∧
  (∀ name, (∀ th, th ∈ incomingHeaders →
                  textproto.CanonicalMIMEHeaderKey th ≠ textproto.CanonicalMIMEHeaderKey name) →
           out !! textproto.CanonicalMIMEHeaderKey name = None ∧ Header_Get out name = "") ∧
  (∀ k, k ∉ textproto.CanonicalMIMEHeaderKey <$> incomingHeaders → out !! k = None).
Proof.
  intros Hin inbound out.
  destruct (upstream_calls_outbound ctx st x Hin) as [d Hd].
  assert (∀ k, out !! k =
               if decide (first_value inbound k ≠ "" ∧
                          Exists (λ th, textproto.CanonicalMIMEHeaderKey th = k)
                            incomingHeaders)
               then Some [first_value inbound k] else None) as Hout.
  { intros k. subst out. rewrite Hd, outbound_header, forwarded_lookup.
    by rewrite lookup_empty. }
  assert (∀ k, k ∉ textproto.CanonicalMIMEHeaderKey <$> incomingHeaders → out !! k = None)
    as Hother.
  { intros k Hk. rewrite Hout. rewrite decide_False; [done|].
    intros [_ Hex]. apply Exists_exists in Hex as (th & Hth & <-).
    apply Hk. apply list_elem_of_fmap. eauto. }
  split_and!.
  - intros th Hth Hne. rewrite !Header_Get_first_value in *.
    assert (out !! textproto.CanonicalMIMEHeaderKey th
            = Some [first_value inbound (textproto.CanonicalMIMEHeaderKey th)]) as Hk.
    { rewrite Hout. rewrite decide_True; [done|]. split; [done|].
      by apply Exists_canonical. }
    split; [|done]. unfold first_value at 1. by rewrite Hk.
  - intros th Hth He. rewrite !Header_Get_first_value in *.
    assert (out !! textproto.CanonicalMIMEHeaderKey th = None) as Hk.
    { rewrite Hout. rewrite decide_False; [done|]. by intros [? _]. }
    split; [done|]. unfold first_value at 1. by rewrite Hk.
  - intros name Hname.
    assert (out !! textproto.CanonicalMIMEHeaderKey name = None) as Hk.
    { apply Hother. intros Hk. apply list_elem_of_fmap in Hk as (th & Heq & Hth).
      by apply (Hname th). }
    split; [done|]. rewrite Header_Get_first_value. unfold first_value. by rewrite Hk.
  - done.
Qed.

(** ** The gates of [CreateBet] *)

Lemma CreateBet_rejects ctx st :
  Header_Get (ReqHeader (Context_Request ctx)) "Content-Type" ≠ "application/json" →
  CreateBet ctx st =
    (Val (Some (echo_NewHTTPError http_StatusUnsupportedMediaType [])), st).
Proof.
  intros Hct. unfold CreateBet. apply String.eqb_neq in Hct. by rewrite Hct.
Qed.

(** C5, amended.  When the content type of a POST request is not
    [application/json], [CreateBet] returns the error of status 415 that
    [echo.NewHTTPError] makes without a message argument, whose message is
    the status text; the handler writes nothing itself, and the error handler
    of [echo] sends status 415 with the body [{"message":"Unsupported Media
    Type"}].  No upstream call is made, and what the request body holds plays
    no part. *)
Theorem CreateBet_unsupported_media_type ctx st :
  Method (Context_Request ctx) = "POST" →
  Header_Get (ReqHeader (Context_Request ctx)) "Content-Type" ≠ "application/json" →
  written st = None →
  let he := {| Code := 415; Message := anyString "Unsupported Media Type" |} in
  CreateBet ctx st = (Val (Some he), st) ∧
  he = echo_NewHTTPError http_StatusUnsupportedMediaType [] ∧
  written (CreateBet ctx st).2 = None ∧
  echo_DefaultHTTPErrorHandler he ctx =
    (415, Some (JObject [("message", JString "Unsupported Media Type")])) ∧
  upstream_calls ctx st = [] ∧
  (∀ body, CreateBet {| Context_Request := with_Body (Context_Request ctx) body |} st
           = CreateBet ctx st).
Proof.
  intros Hpost Hct Hfresh he. pose proof (CreateBet_rejects ctx st Hct) as E.
  split_and!; [exact E | reflexivity | by rewrite E | | |].
  - unfold echo_DefaultHTTPErrorHandler. by rewrite Hpost.
  - eapply upstream_calls_of; [exact E|]. by rewrite app_nil_r.
  - intros body. rewrite E. by apply CreateBet_rejects.
Qed.

(** C9.  [CreateBet] answers 415 exactly when the first value of the
    [Content-Type] header differs from the string ["application/json"]; in
    particular ["application/json; charset=utf-8"] is answered 415. *)
Theorem CreateBet_content_type_exact ctx st :
  ((CreateBet ctx st).1 = Val (Some (echo_NewHTTPError http_StatusUnsupportedMediaType []))
   ↔ Header_Get (ReqHeader (Context_Request ctx)) "Content-Type" ≠ "application/json") ∧
  (Header_Get (ReqHeader (Context_Request ctx)) "Content-Type"
     = "application/json; charset=utf-8" →
   CreateBet ctx st =
     (Val (Some (echo_NewHTTPError http_StatusUnsupportedMediaType [])), st) ∧
   Code (echo_NewHTTPError http_StatusUnsupportedMediaType []) = 415).
Proof.
  split.
  - split; [|intros Hct; by rewrite CreateBet_rejects].
    intros E Hct. pose proof (CreateBet_runs ctx st) as Hrun.
    destruct (CreateBet ctx st) as [r s]. simpl in E. subst r.
    inversion Hrun; congruence.
  - intros Hct. split; [|done]. apply CreateBet_rejects. rewrite Hct. discriminate.
Qed.

(** What [CreateBet] returns when the body of the request does not
    decode: the message of the error is the method value [err.Error], not
    the string it would return. *)
Lemma CreateBet_undecodable_body ctx st bet err :
  Header_Get (ReqHeader (Context_Request ctx)) "Content-Type" = "application/json" →
  json_Decode_Bet (ReqBody (Context_Request ctx)) = (bet, Some err) →
  CreateBet ctx st =
    (Val (Some {| Code := 500; Message := anyFunc (λ _, error_Error err) |}), st) ∧
  upstream_calls ctx st = [].
Proof.
  intros Hct Hbody.
  assert (CreateBet ctx st =
            (Val (Some {| Code := 500; Message := anyFunc (λ _, error_Error err) |}), st))
    as E.
  { unfold CreateBet. rewrite Hct, Hbody. reflexivity. }
  split; [done|]. eapply upstream_calls_of; [done|]. by rewrite app_nil_r.
Qed.

(** ** [Health] *)

(** C8.  [Health] writes status 200 and the object with the one member
    ["status"] of value ["UP"], whatever the platform, the request and the
    state of the upstream services, which it leaves alone. *)
Theorem Health_up ctx st :
  Health ctx st = (Val None, respond st 200 (JObject [("status", JString "UP")])) ∧
  written (Health ctx st).2 = Some (200, JObject [("status", JString "UP")]) ∧
  world (Health ctx st).2 = world st ∧
  exchanges (Health ctx st).2 = exchanges st.
Proof. done. Qed.

End Handlers.

(** * More of [main.go] *)

(** ** [hasError] and [forwardHeaders] *)

(** X1.  [hasError] is true exactly when one of its arguments, however
    many there are and wherever it stands, is not nil; the loop has no
    early exit, so the answer for two lists put end to end is the
    disjunction of the two answers. *)
Theorem hasError_any (errs errs' : list (option error)) :
  (hasError errs = true ↔ ∃ e, Some e ∈ errs) ∧
  hasError (errs ++ errs') = hasError errs || hasError errs'.
Proof.
  split; [apply hasError_true|].
  unfold hasError. rewrite !hasError_fold. simpl. by rewrite existsb_app.
Qed.

Lemma forwarded_twice (inbound out : Header) (ths : list string) :
  forwarded inbound (forwarded inbound out ths) ths = forwarded inbound out ths.
Proof.
  apply map_eq. intros k. rewrite !forwarded_lookup. by case_decide.
Qed.

Lemma ReqHeader_with_Header (r : Request) (h : Header) :
  ReqHeader (with_Header r h) = h.
Proof. reflexivity. Qed.

Lemma Exists_canonical_key (k : string) (ths : list string) :
  Exists (λ th, textproto.CanonicalMIMEHeaderKey th = k) ths
  ↔ k ∈ textproto.CanonicalMIMEHeaderKey <$> ths.
Proof.
  rewrite Exists_exists, list_elem_of_fmap. split; intros (th & ? & ?); eauto.
Qed.

Section Coverage.

Context `{P : Platform}.

Implicit Types (ctx : Context) (st : St) (x : Exchange).

(** X2.  On a request that is not nil, [forwardHeaders] always returns,
    touches no handler state and sends nothing; the request keeps its
    method, URL and body.  In its header map, a key of the list whose
    inbound value is not empty ends up with that one value, whatever it
    held before; every other key, listed or not, keeps what it held. *)
Theorem forwardHeaders_frame ctx (r : Request) st :
  let inbound := ReqHeader (Context_Request ctx) in
  ∃ r', forwardHeaders ctx (Some r) st = (Val (Some r'), st) ∧
        Method r' = Method r ∧ URL r' = URL r ∧ ReqBody r' = ReqBody r ∧
        (∀ th, th ∈ incomingHeaders → Header_Get inbound th ≠ "" →
               ReqHeader r' !! textproto.CanonicalMIMEHeaderKey th
               = Some [Header_Get inbound th]) ∧
        (∀ th, th ∈ incomingHeaders → Header_Get inbound th = "" →
               ReqHeader r' !! textproto.CanonicalMIMEHeaderKey th
               = ReqHeader r !! textproto.CanonicalMIMEHeaderKey th) ∧
        (∀ k, k ∉ textproto.CanonicalMIMEHeaderKey <$> incomingHeaders →
              ReqHeader r' !! k = ReqHeader r !! k).
Proof.
  intros inbound. eexists. split; [apply forwardHeaders_Some|].
  split_and!; try reflexivity.
  - intros th Hth Hne. rewrite ReqHeader_with_Header, forwarded_lookup, decide_True; [done|].
    split; [done|]. by apply Exists_canonical.
  - intros th Hth He. rewrite ReqHeader_with_Header, forwarded_lookup, decide_False; [done|].
    by intros [? _].
  - intros k Hk. rewrite ReqHeader_with_Header, forwarded_lookup, decide_False; [done|].
    intros [_ Hex]. by apply Exists_canonical_key in Hex.
Qed.

Lemma Val_Some_inj {A} (a b : A) st st' :
  (Val (Some a), st) = (Val (Some b), st') → a = b ∧ st = st'.
Proof. by intros [= -> ->]. Qed.

(** X3.  [forwardHeaders] applied to its own result changes nothing. *)
Theorem forwardHeaders_idempotent ctx (r r' : Request) st st' :
  forwardHeaders ctx (Some r) st = (Val (Some r'), st') →
  forwardHeaders ctx (Some r') st' = (Val (Some r'), st').
Proof.
  rewrite forwardHeaders_Some. intros H.
  destruct (Val_Some_inj _ _ _ _ H) as [<- <-].
  rewrite forwardHeaders_Some, ReqHeader_with_Header, forwarded_twice. reflexivity.
Qed.

Lemma forwardHeaders_range_nil ctx (ths : list string) st :
  forwardHeaders_range ctx ths None st =
    if forallb (λ th, String.eqb (Header_Get (ReqHeader (Context_Request ctx)) th) "") ths
    then (Val None, st) else (Panic nil_dereference, st).
Proof.
  induction ths as [|th ths IH]; simpl; [done|].
  destruct (String.eqb _ ""); simpl; [apply IH | done].
Qed.

(** X4.  On a nil request, [forwardHeaders] panics exactly when some header
    of the list has an inbound value that is not empty; with none it hands
    the nil request on.  Either way the handler state is untouched. *)
Theorem forwardHeaders_nil ctx st :
  let inbound := ReqHeader (Context_Request ctx) in
  ((∃ th, th ∈ incomingHeaders ∧ Header_Get inbound th ≠ "") →
   forwardHeaders ctx None st = (Panic nil_dereference, st)) ∧
  ((∀ th, th ∈ incomingHeaders → Header_Get inbound th = "") →
   forwardHeaders ctx None st = (Val None, st)).
Proof.
  intros inbound. unfold forwardHeaders. rewrite forwardHeaders_range_nil.
  destruct (forallb _ incomingHeaders) eqn:Hall.
  - rewrite forallb_forall in Hall. split; [|done].
    intros (th & Hth & Hne). exfalso. apply Hne.
    apply String.eqb_eq. apply Hall. by apply list_elem_of_In.
  - split; [done|]. intros Hempty.
    assert (forallb (λ th, String.eqb (Header_Get inbound th) "") incomingHeaders = true)
      as Ht; [|subst inbound; congruence].
    apply forallb_forall. intros th Hth. apply String.eqb_eq, Hempty.
    by apply list_elem_of_In.
Qed.

(** ** The upstream calls *)

(** X5.  A call that gets no response returns status 0, the error of the
    transport as it is, and no payload. *)
Theorem call_transport_error (d : site) ctx st r st' q err :
  call d ctx st = (r, st') →
  exchanges st' = exchanges st ++ [(q, inr err)] →
  r = Val (empty_payload d, 0, Some err).
Proof.
  intros E Hex.
  destruct (call_received d ctx st r st' q (inr err) E Hex) as ([[pl s] e] & -> & _ & Hr).
  destruct d; simpl in Hr; destruct Hr as (v & -> & Hr); inversion Hr; subst; done.
Qed.

(** X6.  A call that receives a 2xx response whose body decodes returns the
    payload made of it, the status of the response and a nil error: the
    decoded match for [match]; for [player] and [championship] the string
    under ["email"] and ["title"], or the empty string when the decoded
    object has no such member. *)
Theorem call_decoded (d : site) ctx st r st' q res pl :
  call d ctx st = (r, st') →
  exchanges st' = exchanges st ++ [(q, inl res)] →
  is2xx (StatusCode res) = true →
  decoded d res pl →
  r = Val (pl, StatusCode res, None).
Proof.
  intros E Hex H2 Hd.
  destruct (call_received d ctx st r st' q (inl res) E Hex) as ([[pl' s] e] & -> & _ & Hr).
  destruct d; simpl in Hr, Hd; destruct Hr as (v & -> & Hr).
  - destruct Hd as (data & Hdec & ->). inversion Hr; subst; simpl; congruence.
  - destruct Hd as (Hread & fields & Hdec & ->). inversion Hr; subst; simpl; congruence.
  - destruct Hd as (Hread & fields & Hdec & ->). inversion Hr; subst; simpl; congruence.
Qed.

(** X7.  When reading the body of a 2xx response fails, [player] and
    [championship] return the read error with the status of the response
    and the empty string, whatever the bytes read so far would decode to. *)
Theorem call_unreadable (d : site) ctx st r st' q res readErr :
  d ≠ Matches →
  call d ctx st = (r, st') →
  exchanges st' = exchanges st ++ [(q, inl res)] →
  is2xx (StatusCode res) = true →
  failure (ResBody res) = Some readErr →
  r = Val (Text "", StatusCode res, Some readErr).
Proof.
  intros Hd E Hex H2 Hread.
  destruct (call_received d ctx st r st' q (inl res) E Hex) as ([[pl' s] e] & -> & _ & Hr).
  destruct d; [done| |]; simpl in Hr; destruct Hr as (v & -> & Hr);
    inversion Hr; subst; simpl; congruence.
Qed.

Lemma site_returns_invariant (d : site) out pl s e :
  site_returns d out (pl, s, e) →
  (is_Some e → pl = empty_payload d) ∧
  (e = None → is2xx s = true) ∧
  (d = Matches → e = None → ∃ data, pl = MatchPointer (Some data)) ∧
  (s = 0 ∨ ∃ res, out = inl res ∧ s = StatusCode res).
Proof.
  intros Hr. destruct d; simpl in Hr; destruct Hr as (v & -> & Hr);
    inversion Hr; subst; simpl;
    (split_and!; [ try done; by intros [? [=]] | try done | try done; eauto | eauto ]).
Qed.

(** X8.  Whatever a call returns, an error comes with no payload, a nil
    error comes with a 2xx status (and, from [match], with a match that is
    not nil), and the status is 0 or the status of the response received. *)
Theorem call_result_invariant (d : site) ctx st pl s e st' :
  call d ctx st = (Val (pl, s, e), st') →
  (is_Some e → pl = empty_payload d) ∧
  (e = None → is2xx s = true) ∧
  (d = Matches → e = None → ∃ data, pl = MatchPointer (Some data)) ∧
  (s = 0 ∨ ∃ q res, exchanges st' = exchanges st ++ [(q, inl res)] ∧ s = StatusCode res).
Proof.
  intros E. pose proof (call_site_run d ctx st) as H. rewrite E in H.
  apply call_run_Val in H as (out & w & -> & Hr).
  destruct (site_returns_invariant d out pl s e Hr) as (H1 & H2 & H3 & H4).
  split_and!; try done.
  destruct H4 as [->|(res & -> & ->)]; [by left|]. right. by eexists _, _.
Qed.

(** X9.  With an endpoint that is a URL, a call sends exactly one request,
    a GET without a body to the configured endpoint, and returns; the world
    moves on by that one exchange and the response of the handler is left
    as it was. *)
Theorem call_sends_one_request (d : site) ctx st :
  url_Parse (os_Getenv (site_key d)) = None →
  ∃ q out t,
    call d ctx st =
      (Val t, {| world := (transport q (world st)).2;
                 exchanges := exchanges st ++ [(q, out)];
                 written := written st |}) ∧
    out = (transport q (world st)).1 ∧
    Method q = "GET" ∧ URL q = os_Getenv (site_key d) ∧ ReqBody q = NoBody ∧
    ReqHeader q = forwarded (ReqHeader (Context_Request ctx)) ∅ incomingHeaders.
Proof.
  intros Hurl. pose proof (call_site_run d ctx st) as H.
  destruct (call d ctx st) as [r s].
  inversion H as [err reason Hbad | out w a _ Htr Hr]; subst; [congruence|].
  exists (outbound ctx (site_key d)), out, a. rewrite Htr. by split_and!.
Qed.

Lemma nil_request_panics {A} ctx st (k : Response + error → M A) :
  M_bind _ _ (λ req, M_bind _ _ k (client_Do req)) (forwardHeaders ctx None) st
  = (Panic nil_dereference, st).
Proof.
  unfold M_bind, forwardHeaders. rewrite forwardHeaders_range_nil.
  by destruct (forallb _ _).
Qed.

(** X10.  With an endpoint that [url.Parse] rejects, a call panics on the
    nil request before anything is sent: the handler state is unchanged. *)
Theorem call_endpoint_not_url (d : site) ctx st err :
  url_Parse (os_Getenv (site_key d)) = Some err →
  call d ctx st = (Panic nil_dereference, st).
Proof.
  intros Hurl. destruct d; simpl in *; unfold mbind at 1, M_bind at 1.
  - unfold match_. rewrite http_NewRequest_GET, Hurl. unfold mbind.
    by rewrite nil_request_panics.
  - unfold player. rewrite http_NewRequest_GET, Hurl. unfold mbind.
    by rewrite nil_request_panics.
  - unfold championship. rewrite http_NewRequest_GET, Hurl. unfold mbind.
    by rewrite nil_request_panics.
Qed.

(** ** [CreateBet] *)

Lemma call_run_url {A} (returns : Response + error → A → Prop) ctx key st rs :
  call_run returns ctx key st rs →
  match url_Parse (os_Getenv key) with
  | Some _ => ∃ reason, rs = (Panic reason, st)
  | None =>
      let q := outbound ctx key in
      ∃ a, rs = (Val a, record st q (transport q (world st)).1 (transport q (world st)).2) ∧
           returns (transport q (world st)).1 a
  end.
Proof.
  intros [err reason Hurl | out w a Hurl Htr Hr]; rewrite Hurl; [eauto|].
  simpl. rewrite Htr. eauto.
Qed.

Lemma CreateBet_match_panics ctx st reason s :
  accepted ctx → match_ ctx st = (Panic reason, s) → CreateBet ctx st = (Panic reason, s).
Proof.
  intros [Hct [bet Hbody]] E1. unfold CreateBet. rewrite Hct, Hbody. simpl.
  unfold mbind, M_bind. by rewrite E1.
Qed.

Lemma CreateBet_player_panics ctx st t1 s1 reason s :
  accepted ctx → match_ ctx st = (Val t1, s1) → player ctx s1 = (Panic reason, s) →
  CreateBet ctx st = (Panic reason, s).
Proof.
  intros [Hct [bet Hbody]] E1 E2. unfold CreateBet. rewrite Hct, Hbody. simpl.
  unfold mbind, M_bind. rewrite E1. destruct t1 as [[m ms] me]. by rewrite E2.
Qed.

Lemma CreateBet_championship_panics ctx st t1 s1 t2 s2 reason s :
  accepted ctx → match_ ctx st = (Val t1, s1) → player ctx s1 = (Val t2, s2) →
  championship ctx s2 = (Panic reason, s) →
  CreateBet ctx st = (Panic reason, s).
Proof.
  intros [Hct [bet Hbody]] E1 E2 E3. unfold CreateBet. rewrite Hct, Hbody. simpl.
  unfold mbind, M_bind. rewrite E1. destruct t1 as [[m ms] me]. rewrite E2.
  destruct t2 as [[p ps] pe]. by rewrite E3.
Qed.

(** The three calls of an accepted request whose endpoints are URLs, each
    from the state the one before left. *)
Lemma CreateBet_accepted_calls ctx st :
  accepted ctx →
  (∀ d, url_Parse (os_Getenv (site_key d)) = None) →
  let q d := outbound ctx (site_key d) in
  let a1 := transport (q Matches) (world st) in
  let a2 := transport (q Players) a1.2 in
  let a3 := transport (q Championships) a2.2 in
  let s1 := record st (q Matches) a1.1 a1.2 in
  let s2 := record s1 (q Players) a2.1 a2.2 in
  let s3 := record s2 (q Championships) a3.1 a3.2 in
  ∃ m ms me p ps pe c cs ce,
    match_ ctx st = (Val (m, ms, me), s1) ∧
    player ctx s1 = (Val (p, ps, pe), s2) ∧
    championship ctx s2 = (Val (c, cs, ce), s3) ∧
    match_returns a1.1 (m, ms, me) ∧
    exchanges s3 = exchanges st ++
                     [(q Matches, a1.1); (q Players, a2.1); (q Championships, a3.1)].
Proof.
  intros Hacc Hurl q a1 a2 a3 s1 s2 s3.
  pose proof (Hurl Matches) as U1. pose proof (Hurl Players) as U2.
  pose proof (Hurl Championships) as U3. simpl in U1, U2, U3.
  pose proof (call_run_url _ _ _ _ _ (match_run ctx st)) as H1.
  rewrite U1 in H1. destruct H1 as ([[m ms] me] & E1 & R1).
  pose proof (call_run_url _ _ _ _ _ (player_run ctx s1)) as H2.
  rewrite U2 in H2. destruct H2 as ([[p ps] pe] & E2 & R2).
  pose proof (call_run_url _ _ _ _ _ (championship_run ctx s2)) as H3.
  rewrite U3 in H3. destruct H3 as ([[c cs] ce] & E3 & R3).
  exists m, ms, me, p, ps, pe, c, cs, ce.
  split_and!; [exact E1 | exact E2 | exact E3 | exact R1 |].
  subst s3 s2 s1. simpl. by rewrite <- !app_assoc.
Qed.

(** X11.  Once a request is accepted and the three endpoints are URLs,
    [CreateBet] calls the match, player and championship services, in that
    order and each exactly once, whatever the earlier ones answered: a
    failure does not stop the later calls.  Each call meets the world the
    one before left, and the handler then writes 201 or 503. *)
Theorem CreateBet_calls_all_three ctx st :
  accepted ctx →
  (∀ d, url_Parse (os_Getenv (site_key d)) = None) →
  let q d := outbound ctx (site_key d) in
  let a1 := transport (q Matches) (world st) in
  let a2 := transport (q Players) a1.2 in
  let a3 := transport (q Championships) a2.2 in
  upstream_calls ctx st = [(q Matches, a1.1); (q Players, a2.1); (q Championships, a3.1)] ∧
  world (CreateBet ctx st).2 = a3.2 ∧
  (CreateBet ctx st).1 = Val None ∧
  ∃ code body, written (CreateBet ctx st).2 = Some (code, body) ∧ (code = 201 ∨ code = 503).
Proof.
  intros Hacc Hurl q a1 a2 a3.
  destruct (CreateBet_accepted_calls ctx st Hacc Hurl)
    as (m & ms & me & p & ps & pe & c & cs & ce & E1 & E2 & E3 & R1 & Hex).
  pose proof (CreateBet_aggregate ctx st _ _ _ _ _ _ _ _ _ _ _ _ Hacc E1 E2 E3) as E.
  destruct (hasError [me; pe; ce]) eqn:Herr.
  - split_and!; [by eapply upstream_calls_of| by rewrite E | by rewrite E |].
    rewrite E. simpl. eexists _, _. split; [done|]. by right.
  - apply hasError_three in Herr as (-> & -> & ->).
    apply match_returns_payload in R1 as [data ->].
    split_and!; [by eapply upstream_calls_of| by rewrite E | by rewrite E |].
    rewrite E. simpl. eexists _, _. split; [done|]. by left.
Qed.

Lemma errors_lookup (d : site) (ps ms cs : Z) :
  ({[ "players" := ps; "matches" := ms; "championships" := cs ]} : gmap string Z)
    !! site_name d
  = Some (match d with Matches => ms | Players => ps | Championships => cs end).
Proof. by destruct d. Qed.

(** X12.  A 2xx answer whose body does not decode also makes the handler
    answer 503.  In the [errors] map the match service then stands with
    status 0, while the player or championship service stands with the 2xx
    status it answered. *)
Theorem CreateBet_undecodable_answer (d : site) ctx st x1 x2 x3 res jsonErr :
  upstream_calls ctx st = [x1; x2; x3] →
  (site_exchange d x1 x2 x3).2 = inl res →
  is2xx (StatusCode res) = true →
  undecodable d res jsonErr →
  ∃ s (errors : gmap string Z),
    CreateBet ctx st =
      (Val None, respond s http_StatusServiceUnavailable
                   (marshal_Error {| Errors := errors |})) ∧
    errors !! site_name d =
      Some (match d with Matches => 0 | Players | Championships => StatusCode res end).
Proof.
  intros Hcalls Hx H2 Hu.
  apply upstream_calls_three in Hcalls as [Hacc Hres].
  destruct Hres as (m & ms & me & s1 & p & ps & pe & s2 & c & cs & ce & s3 &
                    E1 & E2 & E3 & _ & R1 & R2 & R3).
  exists s3, {[ "players" := ps; "matches" := ms; "championships" := cs ]}.
  rewrite (CreateBet_aggregate ctx st _ _ _ _ _ _ _ _ _ _ _ _ Hacc E1 E2 E3).
  rewrite errors_lookup.
  destruct d; simpl in Hx, Hu; rewrite Hx in *.
  - destruct Hu as [data Hu]. inversion R1; subst; try congruence.
    by destruct pe, ce.
  - destruct Hu as [Hread [data Hu]]. inversion R2; subst; try congruence.
    by destruct me, ce.
  - destruct Hu as [Hread [data Hu]]. inversion R3; subst; try congruence.
    by destruct me, pe.
Qed.

Lemma forwardHeaders_range_body ctx (b : Body) (ths : list string) (r : option Request) :
  forwardHeaders_range (with_request_body ctx b) ths r = forwardHeaders_range ctx ths r.
Proof.
  revert r. induction ths as [|th ths IH]; intros r; simpl; [done|].
  destruct (negb _); [|apply IH]. destruct r; [apply IH|done].
Qed.

Lemma match_body ctx (b : Body) : match_ (with_request_body ctx b) = match_ ctx.
Proof.
  unfold match_. destruct (http_NewRequest _ _ _) as [req e].
  unfold forwardHeaders. by rewrite forwardHeaders_range_body.
Qed.

Lemma player_body ctx (b : Body) : player (with_request_body ctx b) = player ctx.
Proof.
  unfold player. destruct (http_NewRequest _ _ _) as [req e].
  unfold forwardHeaders. by rewrite forwardHeaders_range_body.
Qed.

Lemma championship_body ctx (b : Body) :
  championship (with_request_body ctx b) = championship ctx.
Proof.
  unfold championship. destruct (http_NewRequest _ _ _) as [req e].
  unfold forwardHeaders. by rewrite forwardHeaders_range_body.
Qed.

(** X13.  What the submitted bet holds plays no part: two requests with
    the same headers whose bodies both decode get the same answer, after the
    same upstream calls. *)
Theorem CreateBet_ignores_body ctx (b : Body) st :
  accepted ctx →
  (∃ bet, json_Decode_Bet b = (bet, None)) →
  CreateBet (with_request_body ctx b) st = CreateBet ctx st.
Proof.
  intros [Hct [bet Hbody]] [bet' Hb]. unfold CreateBet. simpl.
  rewrite Hct, Hbody, Hb. simpl.
  by rewrite match_body, player_body, championship_body.
Qed.

Lemma upstream_calls_length ctx st r s (l : list Exchange) :
  CreateBet ctx st = (r, s) → exchanges s = exchanges st ++ l →
  length (upstream_calls ctx st) = length l.
Proof. intros E Hl. by rewrite (upstream_calls_of ctx st r s l E Hl). Qed.

(** X14.  Every run of [CreateBet] ends in one of three ways.  It returns
    an error of status 415 or 500, having called no service and left the
    handler state as it was; or it returns no error after exactly three
    upstream calls, having written status 201 or 503; or it panics after
    fewer than three calls, having written nothing. *)
Theorem CreateBet_outcomes ctx st :
  match CreateBet ctx st with
  | (Val (Some he), s) =>
      s = st ∧ (Code he = 415 ∨ Code he = 500) ∧ upstream_calls ctx st = []
  | (Val None, s) =>
      length (upstream_calls ctx st) = 3%nat ∧
      ∃ code body, written s = Some (code, body) ∧ (code = 201 ∨ code = 503)
  | (Panic _, s) =>
      (length (upstream_calls ctx st) < 3)%nat ∧ written s = written st
  end.
Proof.
  pose proof (CreateBet_runs ctx st) as Hrun.
  destruct (CreateBet ctx st) as [r s] eqn:E.
  inversion Hrun as
    [ Hct | bet err Hct Hbody | reason Hacc E1
    | t1 s1 reason Hacc E1 E2 | t1 s1 t2 s2 reason Hacc E1 E2 E3
    | m ms me s1 p ps pe s2 c cs ce s3 Hacc E1 E2 E3 Herr
    | data ms s1 p ps s2 c cs s3 Hacc E1 E2 E3 ]; subst.
  - split_and!; [done | by left |].
    eapply upstream_calls_of; [done|]. by rewrite app_nil_r.
  - split_and!; [done | by right |].
    eapply upstream_calls_of; [done|]. by rewrite app_nil_r.
  - split; [|done].
    erewrite upstream_calls_length; [|exact E|symmetry; apply app_nil_r]. simpl. lia.
  - apply match_Val in E1 as (o1 & w1 & -> & _). split; [|done].
    erewrite upstream_calls_length; [|exact E|reflexivity]. simpl. lia.
  - apply match_Val in E1 as (o1 & w1 & -> & _).
    apply player_Val in E2 as (o2 & w2 & -> & _). split; [|done].
    erewrite upstream_calls_length; [|exact E|simpl; rewrite <- app_assoc; reflexivity].
    simpl. lia.
  - apply match_Val in E1 as (o1 & w1 & -> & _).
    apply player_Val in E2 as (o2 & w2 & -> & _).
    apply championship_Val in E3 as (o3 & w3 & -> & _). split.
    + erewrite upstream_calls_length;
        [|exact E|simpl; rewrite <- !app_assoc; reflexivity]. done.
    + eexists _, _. split; [done|]. by right.
  - apply match_Val in E1 as (o1 & w1 & -> & _).
    apply player_Val in E2 as (o2 & w2 & -> & _).
    apply championship_Val in E3 as (o3 & w3 & -> & _). split.
    + erewrite upstream_calls_length;
        [|exact E|simpl; rewrite <- !app_assoc; reflexivity]. done.
    + eexists _, _. split; [done|]. by left.
Qed.

Lemma call_run_panic_url {A} (returns : Response + error → A → Prop) ctx key st reason s :
  call_run returns ctx key st (Panic reason, s) → url_Parse (os_Getenv key) ≠ None.
Proof. inversion 1. congruence. Qed.

(** X15.  [CreateBet] panics exactly when it accepts the request and one of
    the three configured endpoints is not a URL. *)
Theorem CreateBet_panics_iff ctx st :
  (∃ reason, (CreateBet ctx st).1 = Panic reason)
  ↔ accepted ctx ∧ ∃ d, url_Parse (os_Getenv (site_key d)) ≠ None.
Proof.
  split.
  - intros [reason Hp]. pose proof (CreateBet_runs ctx st) as Hrun.
    destruct (CreateBet ctx st) as [r s]. simpl in Hp. subst r.
    inversion Hrun as
      [ | | reason' Hacc E1 | t1 s1 reason' Hacc E1 E2
      | t1 s1 t2 s2 reason' Hacc E1 E2 E3 | | ]; subst; (split; [done|]).
    + exists Matches. pose proof (match_run ctx s) as H. rewrite E1 in H.
      by eapply call_run_panic_url.
    + exists Players. pose proof (player_run ctx s) as H. rewrite E2 in H.
      by eapply call_run_panic_url.
    + exists Championships. pose proof (championship_run ctx s) as H. rewrite E3 in H.
      by eapply call_run_panic_url.
  - intros [Hacc [d Hd]].
    pose proof (call_run_url _ _ _ _ _ (match_run ctx st)) as H1.
    destruct (url_Parse (os_Getenv "MATCH_SVC")) as [e1|] eqn:U1.
    { destruct H1 as [reason E1]. exists reason.
      by rewrite (CreateBet_match_panics ctx st reason st Hacc E1). }
    destruct H1 as (t1 & E1 & _). simpl in E1.
    match type of E1 with _ = (_, ?s) => set (s1 := s) in * end.
    pose proof (call_run_url _ _ _ _ _ (player_run ctx s1)) as H2.
    destruct (url_Parse (os_Getenv "PLAYER_SVC")) as [e2|] eqn:U2.
    { destruct H2 as [reason E2]. exists reason.
      by rewrite (CreateBet_player_panics ctx st t1 s1 reason s1 Hacc E1 E2). }
    destruct H2 as (t2 & E2 & _). simpl in E2.
    match type of E2 with _ = (_, ?s) => set (s2 := s) in * end.
    pose proof (call_run_url _ _ _ _ _ (championship_run ctx s2)) as H3.
    destruct (url_Parse (os_Getenv "CHAMPIONSHIP_SVC")) as [e3|] eqn:U3.
    { destruct H3 as [reason E3]. exists reason.
      by rewrite (CreateBet_championship_panics ctx st t1 s1 t2 s2 reason s2 Hacc E1 E2 E3). }
    exfalso. destruct d; simpl in Hd; congruence.
Qed.

Lemma match_string_not_empty (h a : string) : String.eqb (h +:+ " 2x3 " +:+ a) "" = false.
Proof. by destruct h. Qed.

Lemma marshal_Bet_created (c h a p : string) :
  let body := marshal_Bet {| Bet_HomeTeamScore := "2";
                             Bet_AwayTeamScore := "3";
                             Bet_Championship := c;
                             Bet_Match := h +:+ " 2x3 " +:+ a;
                             Bet_Email := p |} in
  member "homeTeamScore" body = Some (JString "2") ∧
  member "awayTeamScore" body = Some (JString "3") ∧
  member "match" body = Some (JString (h +:+ " 2x3 " +:+ a)).
Proof.
  unfold marshal_Bet, member, omitempty. cbn [Bet_HomeTeamScore Bet_AwayTeamScore
    Bet_Championship Bet_Match Bet_Email].
  rewrite match_string_not_empty.
  destruct (String.eqb c ""), (String.eqb p ""); by split_and!.
Qed.

(** X16.  A 201 answer always carries the members ["homeTeamScore"] with
    ["2"], ["awayTeamScore"] with ["3"] and ["match"]: the match string holds
    [" 2x3 "] even when both team names are empty, so it is never left out. *)
Theorem CreateBet_created_members ctx st body :
  written st = None →
  written (CreateBet ctx st).2 = Some (201, body) →
  member "homeTeamScore" body = Some (JString "2") ∧
  member "awayTeamScore" body = Some (JString "3") ∧
  ∃ h a, member "match" body = Some (JString (h +:+ " 2x3 " +:+ a)).
Proof.
  intros Hfresh Hw. pose proof (CreateBet_runs ctx st) as Hrun.
  destruct (CreateBet ctx st) as [r s]. simpl in Hw.
  inversion Hrun as
    [ Hct | bet err Hct Hbody | reason Hacc E1
    | t1 s1 reason Hacc E1 E2 | t1 s1 t2 s2 reason Hacc E1 E2 E3
    | m ms me s1 p ps pe s2 c cs ce s3 Hacc E1 E2 E3 Herr
    | data ms s1 p ps s2 c cs s3 Hacc E1 E2 E3 ]; subst; try congruence.
  - apply match_Val in E1 as (o1 & w1 & -> & _). simpl in Hw. congruence.
  - apply match_Val in E1 as (o1 & w1 & -> & _).
    apply player_Val in E2 as (o2 & w2 & -> & _). simpl in Hw. congruence.
  - simpl in Hw. discriminate.
  - simpl in Hw. injection Hw as <-.
    destruct (marshal_Bet_created c (Match_HomeTeam data) (Match_AwayTeam data) p)
      as (H1 & H2 & H3).
    split_and!; [exact H1 | exact H2 | eauto].
Qed.

Lemma match_returns_answer out data ms :
  match_returns out (Some data, ms, None) → match_answer out data.
Proof. inversion 1; subst. eexists. eauto. Qed.

Lemma text_returns_answer field out p ps :
  text_returns field out (p, ps, None) → ∃ fields, map_answer out fields.
Proof. inversion 1; subst. eexists _, _. eauto. Qed.

(** X17.  A 201 answer is written only after all three services answered
    2xx with bodies that were read and decoded. *)
Theorem CreateBet_created_only_if ctx st body :
  written st = None →
  written (CreateBet ctx st).2 = Some (201, body) →
  ∃ x1 x2 x3 data players champs,
    upstream_calls ctx st = [x1; x2; x3] ∧
    match_answer x1.2 data ∧ map_answer x2.2 players ∧ map_answer x3.2 champs.
Proof.
  intros Hfresh Hw. pose proof (CreateBet_runs ctx st) as Hrun.
  destruct (CreateBet ctx st) as [r s] eqn:E. simpl in Hw.
  inversion Hrun as
    [ Hct | bet err Hct Hbody | reason Hacc E1
    | t1 s1 reason Hacc E1 E2 | t1 s1 t2 s2 reason Hacc E1 E2 E3
    | m ms me s1 p ps pe s2 c cs ce s3 Hacc E1 E2 E3 Herr
    | data ms s1 p ps s2 c cs s3 Hacc E1 E2 E3 ]; subst; try congruence.
  - apply match_Val in E1 as (o1 & w1 & -> & _). simpl in Hw. congruence.
  - apply match_Val in E1 as (o1 & w1 & -> & _).
    apply player_Val in E2 as (o2 & w2 & -> & _). simpl in Hw. congruence.
  - simpl in Hw. discriminate.
  - apply match_Val in E1 as (o1 & w1 & -> & R1).
    apply player_Val in E2 as (o2 & w2 & -> & R2).
    apply championship_Val in E3 as (o3 & w3 & -> & R3).
    apply match_returns_answer in R1.
    apply text_returns_answer in R2 as [players R2].
    apply text_returns_answer in R3 as [champs R3].
    eexists (_, o1), (_, o2), (_, o3), data, players, champs.
    split_and!; [|exact R1|exact R2|exact R3].
    eapply upstream_calls_of; [exact E|]. simpl. by rewrite <- !app_assoc.
Qed.

End Coverage.

(** * Checking a run on a platform

    Lemmas that reduce what a run did to what the transport of the platform
    answers, so that a concrete run is checked without unfolding it. *)

Section Checking.

Context `{P : Platform}.

Implicit Types (ctx : Context) (st : St).

Lemma pair_with_fst {A B} (p : A * B) (a : A) : p.1 = a → p = (a, p.2).
Proof. intros <-. by destruct p. Qed.

Lemma call_sent_to (d : site) ctx st out :
  url_Parse (os_Getenv (site_key d)) = None →
  (transport (outbound ctx (site_key d)) (world st)).1 = out →
  exchanges (call d ctx st).2 = exchanges st ++ [(outbound ctx (site_key d), out)].
Proof.
  intros Hurl <-. pose proof (call_site_run d ctx st) as H.
  destruct (call d ctx st) as [r s].
  inversion H as [err reason Hbad | out w a _ Htr Hr]; subst; [congruence|].
  simpl. by rewrite Htr.
Qed.

Lemma upstream_calls_to ctx st o1 w1 o2 w2 o3 :
  accepted ctx →
  (∀ d, url_Parse (os_Getenv (site_key d)) = None) →
  transport (outbound ctx "MATCH_SVC") (world st) = (o1, w1) →
  transport (outbound ctx "PLAYER_SVC") w1 = (o2, w2) →
  (transport (outbound ctx "CHAMPIONSHIP_SVC") w2).1 = o3 →
  upstream_calls ctx st =
    [ (outbound ctx "MATCH_SVC", o1); (outbound ctx "PLAYER_SVC", o2);
      (outbound ctx "CHAMPIONSHIP_SVC", o3) ].
Proof.
  intros Hacc Hurl T1 T2 T3.
  destruct (CreateBet_accepted_calls ctx st Hacc Hurl)
    as (m & ms & me & p & ps & pe & c & cs & ce & E1 & E2 & E3 & R1 & Hex).
  simpl in E1, E2, E3, Hex. rewrite T1 in *. simpl in *. rewrite T2 in *. simpl in *.
  rewrite T3 in *.
  pose proof (CreateBet_aggregate ctx st _ _ _ _ _ _ _ _ _ _ _ _ Hacc E1 E2 E3) as E.
  destruct (hasError [me; pe; ce]).
  - by eapply upstream_calls_of.
  - destruct m; by eapply upstream_calls_of.
Qed.

End Checking.

(** * The handlers at work *)

Section Scenarios.

Import Fixture.

(** The platforms of the scenarios share their decoders, their URL parser
    and the environment [env]. *)
Lemma bet_request_accepted (env' : string → string) (upstream : string → Response + error) :
  @accepted (platform env' upstream) bet_request.
Proof.
  split; [vm_compute; reflexivity|]. exists (mkBet "" "" "" "" ""). vm_compute. reflexivity.
Qed.

Lemma env_urls (upstream : string → Response + error) (d : site) :
  @url_Parse (platform env upstream) (@os_Getenv (platform env upstream) (site_key d)) = None.
Proof. destruct d; vm_compute; reflexivity. Qed.

Lemma services_transport (m p c : Response + error) (ctx : Context) (d : site) (served : nat) :
  let P := platform env (services m p c) in
  @transport P (@outbound P ctx (site_key d)) served = (site_answer d m p c, S served).
Proof. destruct d; reflexivity. Qed.

Lemma services_calls (m p c : Response + error) :
  let P := platform env (services m p c) in
  @upstream_calls P bet_request (fresh P 0%nat) =
    [ sent P bet_request Matches m; sent P bet_request Players p;
      sent P bet_request Championships c ].
Proof.
  intros P.
  apply (upstream_calls_to (P := P) bet_request (fresh P 0%nat) m 1%nat p 2%nat c).
  - apply bet_request_accepted.
  - apply env_urls.
  - apply (services_transport m p c bet_request Matches).
  - apply (services_transport m p c bet_request Players).
  - apply (f_equal fst (services_transport m p c bet_request Championships 2%nat)).
Qed.

Lemma services_call_sent (m p c : Response + error) (d : site) :
  let P := platform env (services m p c) in
  exchanges (@call P d bet_request (fresh P 0%nat)).2 =
    [] ++ [(@outbound P bet_request (site_key d), site_answer d m p c)].
Proof.
  intros P. apply (call_sent_to (P := P) d bet_request (fresh P 0%nat)).
  - apply env_urls.
  - apply (f_equal fst (services_transport m p c bet_request d 0%nat)).
Qed.

(** The example of the specification: all three services answer. *)
Example all_up_created :
  let r := CreateBet (P := all_up) bet_request (fresh all_up 0%nat) in
  r.1 = Val None ∧
  world r.2 = (3%nat : @World all_up) ∧
  URL <$> (fst <$> exchanges r.2) =
    [ "http://matches/current"; "http://players/me"; "http://championships/current" ] ∧
  written r.2 = Some (201, JObject [ ("homeTeamScore", JString "2");
                                     ("awayTeamScore", JString "3");
                                     ("championship", JString "League");
                                     ("match", JString "A 2x3 B");
                                     ("email", JString "x@y.com") ]).
Proof. vm_compute. repeat split. Qed.

(** The second example of the specification: the match service answers 500. *)
Example match_down_unavailable :
  written (CreateBet (P := match_down) bet_request (fresh match_down 0%nat)).2 =
    Some (503, JObject [ ("errors", JObject [ ("championships", JNumber 200);
                                               ("matches", JNumber 500);
                                               ("players", JNumber 200) ]) ]).
Proof. vm_compute. reflexivity. Qed.

(** The player service cannot be reached: its status in the map is 0. *)
Example players_unreachable_unavailable :
  written (CreateBet (P := players_unreachable) bet_request
             (fresh players_unreachable 0%nat)).2 =
    Some (503, JObject [ ("errors", JObject [ ("championships", JNumber 200);
                                               ("matches", JNumber 200);
                                               ("players", JNumber 0) ]) ]).
Proof. vm_compute. reflexivity. Qed.

(** An endpoint that is not a URL: [http.NewRequest] returns [nil], and the
    handler panics in [player], after the call to the match service and
    before anything is written. *)
Example player_misconfigured_panics :
  let r := CreateBet (P := player_misconfigured) bet_request
             (fresh player_misconfigured 0%nat) in
  r.1 = Panic nil_dereference ∧
  written r.2 = None ∧
  URL <$> (fst <$> exchanges r.2) = [ "http://matches/current" ].
Proof. vm_compute. repeat split. Qed.

(** What goes upstream of the inbound headers. *)
Example all_up_forwarded :
  map_to_list (ReqHeader (sent all_up bet_request Players player_xy).1) =
    [ ("Authorization", ["Bearer t0k3n"]); ("X-Request-Id", ["r-17"]) ].
Proof. vm_compute. reflexivity. Qed.

(** ** The theorems on the scenarios *)

(** The match service answers 500 and the other two answer 200. *)
Lemma CreateBet_service_unavailable_witness :
  let P : Platform := match_down in
  let ctx := bet_request in
  let st := fresh P 0%nat in
  let x1 := sent P ctx Matches (answer 500 "boom") in
  let x2 := sent P ctx Players player_xy in
  let x3 := sent P ctx Championships championship_League in
  ((∃ bet, json_Decode_Bet (ReqBody (Context_Request ctx)) = (bet, None)) ∧
   upstream_calls ctx st = [x1; x2; x3] ∧
   (upstream_failed x1.2 ∨ upstream_failed x2.2 ∨ upstream_failed x3.2)) ∧
  ∃ s (errors : gmap string Z),
    CreateBet ctx st = (Val None, respond s 503 (marshal_Error {| Errors := errors |})) ∧
    dom errors = {[ "players"; "matches"; "championships" ]}.
Proof.
  intros P ctx st x1 x2 x3.
  assert (∃ bet, json_Decode_Bet (ReqBody (Context_Request ctx)) = (bet, None)) as H1.
  { exists (mkBet "" "" "" "" ""). vm_compute. reflexivity. }
  assert (upstream_calls ctx st = [x1; x2; x3]) as H2
    by exact (services_calls (answer 500 "boom") player_xy championship_League).
  assert (upstream_failed x1.2 ∨ upstream_failed x2.2 ∨ upstream_failed x3.2) as H3.
  { left. vm_compute. reflexivity. }
  split; [split_and!; assumption|].
  destruct (CreateBet_service_unavailable ctx st x1 x2 x3 H1 H2 H3)
    as (m & ms & me & s1 & p & ps & pe & s2 & c & cs & ce & s3 & errors &
        _ & _ & _ & _ & _ & _ & E & Hdom & _).
  exists s3, errors. split; [exact E | exact Hdom].
Defined.

(** All three services answer; the match payload also holds scores. *)
Lemma CreateBet_created_witness :
  let P : Platform := all_up in
  let ctx := bet_request in
  let st := fresh P 0%nat in
  let x1 := sent P ctx Matches match_AB in
  let x2 := sent P ctx Players player_xy in
  let x3 := sent P ctx Championships championship_League in
  let data := {| Match_HomeTeam := "A"; Match_AwayTeam := "B"; Match_Championship := "" |} in
  let players : gmap string string := {[ "email" := "x@y.com" ]} in
  let champs : gmap string string := {[ "title" := "League" ]} in
  (upstream_calls ctx st = [x1; x2; x3] ∧
   match_answer x1.2 data ∧ map_answer x2.2 players ∧ map_answer x3.2 champs) ∧
  ∃ b,
    written (CreateBet ctx st).2 = Some (201, marshal_Bet b) ∧
    Bet_Match b = "A 2x3 B" ∧ Bet_HomeTeamScore b = "2" ∧ Bet_AwayTeamScore b = "3" ∧
    Bet_Championship b = "League" ∧ Bet_Email b = "x@y.com".
Proof.
  intros P ctx st x1 x2 x3 data players champs.
  assert (upstream_calls ctx st = [x1; x2; x3]) as H1
    by exact (services_calls match_AB player_xy championship_League).
  assert (match_answer x1.2 data) as H2.
  { eexists. split_and!; [reflexivity | |]; vm_compute; reflexivity. }
  assert (map_answer x2.2 players) as H3.
  { eexists. split_and!; [reflexivity | | |]; vm_compute; reflexivity. }
  assert (map_answer x3.2 champs) as H4.
  { eexists. split_and!; [reflexivity | | |]; vm_compute; reflexivity. }
  split; [split_and!; assumption|].
  destruct (CreateBet_created ctx st x1 x2 x3 data players champs H1 H2 H3 H4)
    as (b & _ & Hw & _ & Hm & Hh & Ha & Hc & He).
  exists b. split_and!; [exact Hw | exact Hm | exact Hh | exact Ha | exact Hc | exact He].
Defined.

(** The match service answers 500: what [match] returns. *)
Lemma call_non_2xx_witness :
  let P : Platform := match_down in
  let ctx := bet_request in
  let st := fresh P 0%nat in
  let res := {| Status := "500 Internal Server Error"; StatusCode := 500;
                ResHeader := {[ "Content-Type" := ["application/json"] ]};
                ResBody := {| content := "boom"; failure := None |} |} in
  let q := outbound ctx "MATCH_SVC" in
  let r := (call Matches ctx st).1 in
  let st' := (call Matches ctx st).2 in
  (call Matches ctx st = (r, st') ∧
   exchanges st' = exchanges st ++ [(q, inl res)] ∧
   (StatusCode res < 200 ∨ StatusCode res >= 300)) ∧
  r = Val (MatchPointer None, 500, Some (errors_New "500 Internal Server Error")).
Proof.
  intros P ctx st res q r st'.
  assert (call Matches ctx st = (r, st')) as H1 by exact (surjective_pairing _).
  assert (answer 500 "boom" = inl res) as Ha by (vm_compute; reflexivity).
  assert (exchanges st' = exchanges st ++ [(q, inl res)]) as H2.
  { rewrite <- Ha.
    exact (services_call_sent (answer 500 "boom") player_xy championship_League Matches). }
  assert (StatusCode res < 200 ∨ StatusCode res >= 300) as H3 by (right; simpl; lia).
  split; [split_and!; assumption|].
  exact (proj2 (call_non_2xx Matches ctx st r st' q res H1 H2 H3)).
Defined.

(** Every service answers 200 with a body that is not JSON: what [player]
    returns. *)
Lemma call_undecodable_witness :
  let P : Platform := all_garbled in
  let ctx := bet_request in
  let st := fresh P 0%nat in
  let res := {| Status := "200 OK"; StatusCode := 200;
                ResHeader := {[ "Content-Type" := ["application/json"] ]};
                ResBody := {| content := "<html>"; failure := None |} |} in
  let q := outbound ctx "PLAYER_SVC" in
  let r := (call Players ctx st).1 in
  let st' := (call Players ctx st).2 in
  (call Players ctx st = (r, st') ∧
   exchanges st' = exchanges st ++ [(q, inl res)] ∧
   is2xx (StatusCode res) = true ∧
   undecodable Players res syntaxError) ∧
  r = Val (Text "", 200, Some syntaxError).
Proof.
  intros P ctx st res q r st'.
  assert (call Players ctx st = (r, st')) as H1 by exact (surjective_pairing _).
  assert (answer 200 "<html>" = inl res) as Ha by (vm_compute; reflexivity).
  assert (exchanges st' = exchanges st ++ [(q, inl res)]) as H2.
  { rewrite <- Ha.
    exact (services_call_sent (answer 200 "<html>") (answer 200 "<html>")
             (answer 200 "<html>") Players). }
  assert (is2xx (StatusCode res) = true) as H3 by reflexivity.
  assert (undecodable Players res syntaxError) as H4.
  { split; [reflexivity|]. exists (∅ : gmap string string). vm_compute. reflexivity. }
  split; [split_and!; assumption|].
  exact (proj1 (call_undecodable Players ctx st r st' q res syntaxError H1 H2 H3 H4)).
Defined.

(** C3 as stated fails.  Every service answers 200 with a body that is not
    JSON; [match] returns status 0, [player] and [championship] return 200:
    no two call sites return status 0. *)
Lemma call_undecodable_two_sites_counterexample :
  let P : Platform := all_garbled in
  let ctx := bet_request in
  let st := fresh P 0%nat in
  (∀ d, ∃ q res, exchanges (call d ctx st).2 = [(q, inl res)] ∧
                 is2xx (StatusCode res) = true ∧ undecodable d res syntaxError) ∧
  (call Matches ctx st).1 = Val (MatchPointer None, 0, Some syntaxError) ∧
  (call Players ctx st).1 = Val (Text "", 200, Some syntaxError) ∧
  (call Championships ctx st).1 = Val (Text "", 200, Some syntaxError) ∧
  ¬ (∃ d1 d2, d1 ≠ d2 ∧
       (∃ pl e, (call d1 ctx st).1 = Val (pl, 0, e)) ∧
       (∃ pl e, (call d2 ctx st).1 = Val (pl, 0, e))).
Proof.
  intros P ctx st.
  set (res := {| Status := "200 OK"; StatusCode := 200;
                 ResHeader := {[ "Content-Type" := ["application/json"] ]};
                 ResBody := {| content := "<html>"; failure := None |} |}).
  assert (answer 200 "<html>" = inl res) as Ha by (vm_compute; reflexivity).
  assert ((call Matches ctx st).1 = Val (MatchPointer None, 0, Some syntaxError)) as Hm
    by (vm_compute; reflexivity).
  assert ((call Players ctx st).1 = Val (Text "", 200, Some syntaxError)) as Hp
    by (vm_compute; reflexivity).
  assert ((call Championships ctx st).1 = Val (Text "", 200, Some syntaxError)) as Hc
    by (vm_compute; reflexivity).
  split_and!; [| exact Hm | exact Hp | exact Hc |].
  - intros d. exists (outbound ctx (site_key d)), res. split_and!.
    + pose proof (services_call_sent (answer 200 "<html>") (answer 200 "<html>")
                    (answer 200 "<html>") d) as Hs.
      replace (site_answer d (answer 200 "<html>") (answer 200 "<html>")
                 (answer 200 "<html>")) with (inl res : Response + error) in Hs
        by (rewrite <- Ha; by destruct d).
      exact Hs.
    + reflexivity.
    + destruct d; simpl.
      * exists (mkMatch "" "" ""). vm_compute. reflexivity.
      * split; [reflexivity|]. exists (∅ : gmap string string). vm_compute. reflexivity.
      * split; [reflexivity|]. exists (∅ : gmap string string). vm_compute. reflexivity.
  - intros (d1 & d2 & Hne & (pl1 & e1 & H1) & (pl2 & e2 & H2)).
    destruct d1, d2; congruence.
Qed.

(** The player and championship services answer with an empty object. *)
Lemma CreateBet_missing_member_witness :
  let P : Platform := members_missing in
  let ctx := bet_request in
  let st := fresh P 0%nat in
  let x1 := sent P ctx Matches match_AB in
  let x2 := sent P ctx Players (answer 200 "{}") in
  let x3 := sent P ctx Championships (answer 200 "{}") in
  let data := {| Match_HomeTeam := "A"; Match_AwayTeam := "B"; Match_Championship := "" |} in
  let players : gmap string string := ∅ in
  let champs : gmap string string := ∅ in
  (upstream_calls ctx st = [x1; x2; x3] ∧
   match_answer x1.2 data ∧ map_answer x2.2 players ∧ map_answer x3.2 champs) ∧
  ∃ s body,
    CreateBet ctx st = (Val None, respond s 201 body) ∧
    member "email" body = None ∧ member "championship" body = None.
Proof.
  intros P ctx st x1 x2 x3 data players champs.
  assert (upstream_calls ctx st = [x1; x2; x3]) as H1
    by exact (services_calls match_AB (answer 200 "{}") (answer 200 "{}")).
  assert (match_answer x1.2 data) as H2.
  { eexists. split_and!; [reflexivity | |]; vm_compute; reflexivity. }
  assert (map_answer x2.2 players) as H3.
  { eexists. split_and!; [reflexivity | | |]; vm_compute; reflexivity. }
  assert (map_answer x3.2 champs) as H4.
  { eexists. split_and!; [reflexivity | | |]; vm_compute; reflexivity. }
  split; [split_and!; assumption|].
  destruct (CreateBet_missing_member ctx st x1 x2 x3 data players champs H1 H2 H3 H4)
    as (ms & s1 & p & ps & s2 & c & cs & s3 & body & _ & _ & _ & E & Hp & Hc).
  exists s3, body. split_and!; [exact E | |].
  - exact (proj2 (Hp eq_refl)).
  - exact (proj2 (Hc eq_refl)).
Defined.

(** The request carries [Authorization] and [X-Request-Id], an empty
    [X-B3-Sampled] and a [Cookie]: what the call to the player service
    sends. *)
Lemma forwardHeaders_allowlist_witness :
  let P : Platform := all_up in
  let ctx := bet_request in
  let st := fresh P 0%nat in
  let x := sent P ctx Players player_xy in
  x ∈ upstream_calls ctx st ∧
  Header_Get (ReqHeader x.1) "Authorization" = "Bearer t0k3n" ∧
  Header_Get (ReqHeader x.1) "x-request-id" = "r-17" ∧
  ReqHeader x.1 !! "X-B3-Sampled" = None ∧
  ReqHeader x.1 !! "Cookie" = None ∧
  ReqHeader x.1 !! "Content-Type" = None.
Proof.
  intros P ctx st x.
  assert (x ∈ upstream_calls ctx st) as Hin.
  { assert (upstream_calls ctx st =
              [sent P ctx Matches match_AB; x; sent P ctx Championships championship_League])
      as -> by exact (services_calls match_AB player_xy championship_League).
    apply list_elem_of_further, list_elem_of_here. }
  split; [exact Hin|].
  destruct (forwardHeaders_allowlist ctx st x Hin) as (Hcopy & Hempty & _ & Hother).
  split_and!.
  - refine (proj1 (Hcopy "Authorization" _ _)).
    + apply list_elem_of_In. vm_compute. tauto.
    + vm_compute. discriminate.
  - refine (proj1 (Hcopy "x-request-id" _ _)).
    + apply list_elem_of_In. vm_compute. tauto.
    + vm_compute. discriminate.
  - refine (proj1 (Hempty "x-b3-sampled" _ _)).
    + apply list_elem_of_In. vm_compute. tauto.
    + vm_compute. reflexivity.
  - apply Hother. intros Hk. apply list_elem_of_In in Hk. vm_compute in Hk.
    repeat (destruct Hk as [Hk|Hk]; [discriminate|]). exact Hk.
  - apply Hother. intros Hk. apply list_elem_of_In in Hk. vm_compute in Hk.
    repeat (destruct Hk as [Hk|Hk]; [discriminate|]). exact Hk.
Defined.

(** A POST request of content type [text/plain] whose body is a JSON
    object. *)
Lemma CreateBet_unsupported_media_type_witness :
  let P : Platform := match_down in
  let ctx := text_request in
  let st := fresh P 0%nat in
  let he := {| Code := 415; Message := anyString "Unsupported Media Type" |} in
  (Method (Context_Request ctx) = "POST" ∧
   Header_Get (ReqHeader (Context_Request ctx)) "Content-Type" ≠ "application/json" ∧
   written st = None) ∧
  CreateBet ctx st = (Val (Some he), st) ∧
  echo_DefaultHTTPErrorHandler he ctx =
    (415, Some (JObject [("message", JString "Unsupported Media Type")])) ∧
  upstream_calls ctx st = [].
Proof.
  intros P ctx st he.
  assert (Method (Context_Request ctx) = "POST") as H0 by reflexivity.
  assert (Header_Get (ReqHeader (Context_Request ctx)) "Content-Type" ≠ "application/json")
    as H by (vm_compute; discriminate).
  assert (written st = None) as H1 by reflexivity.
  split; [split_and!; assumption|].
  destruct (CreateBet_unsupported_media_type ctx st H0 H H1) as (E & _ & _ & Hb & Hcalls & _).
  split_and!; [exact E | exact Hb | exact Hcalls].
Defined.

(** C5 as stated fails.  A POST request of content type [text/plain] is
    answered 415, and the answer has a body: the error carries the status
    text as its message, which [echo] sends as [{"message":"Unsupported
    Media Type"}]. *)
Lemma CreateBet_unsupported_media_type_no_body_counterexample :
  let P : Platform := match_down in
  let ctx := text_request in
  let st := fresh P 0%nat in
  Method (Context_Request ctx) = "POST" ∧
  Header_Get (ReqHeader (Context_Request ctx)) "Content-Type" ≠ "application/json" ∧
  (∃ he, (CreateBet ctx st).1 = Val (Some he) ∧ Code he = 415 ∧
         (echo_DefaultHTTPErrorHandler he ctx).2
         = Some (JObject [("message", JString "Unsupported Media Type")])) ∧
  ¬ (∃ he, (CreateBet ctx st).1 = Val (Some he) ∧ Code he = 415 ∧
           (echo_DefaultHTTPErrorHandler he ctx).2 = None).
Proof.
  intros P ctx st.
  assert (Header_Get (ReqHeader (Context_Request ctx)) "Content-Type" ≠ "application/json")
    as H by (vm_compute; discriminate).
  pose proof (CreateBet_rejects ctx st H) as E.
  split_and!; [reflexivity | exact H | |].
  - eexists. rewrite E. split_and!; reflexivity.
  - intros (he & Hhe & _ & Hbody). rewrite E in Hhe. simpl in Hhe.
    injection Hhe as <-. discriminate.
Qed.


(** A request of content type [application/json; charset=utf-8]. *)
Lemma CreateBet_content_type_exact_witness :
  let P : Platform := all_up in
  let ctx := charset_request in
  let st := fresh P 0%nat in
  Header_Get (ReqHeader (Context_Request ctx)) "Content-Type"
    = "application/json; charset=utf-8" ∧
  CreateBet ctx st =
    (Val (Some {| Code := 415; Message := anyString "Unsupported Media Type" |}), st).
Proof.
  intros P ctx st.
  assert (Header_Get (ReqHeader (Context_Request ctx)) "Content-Type"
          = "application/json; charset=utf-8") as H by (vm_compute; reflexivity).
  split; [exact H|].
  exact (proj1 (proj2 (CreateBet_content_type_exact ctx st) H)).
Defined.

(** C6 on a request whose body is the single byte of an opening brace.  The
    body does not decode, the handler returns an error of status 500 and
    calls no service, but the message of that error is a function value and
    so is not the text of the decode error. *)
Theorem CreateBet_decode_error_message_lost :
  let P : Platform := all_up in
  let ctx := truncated_request in
  let st := fresh P 0%nat in
  Header_Get (ReqHeader (Context_Request ctx)) "Content-Type" = "application/json" ∧
  (json_Decode_Bet (ReqBody (Context_Request ctx))).2 = Some syntaxError ∧
  CreateBet ctx st =
    (Val (Some {| Code := 500; Message := anyFunc (λ _, error_Error syntaxError) |}), st) ∧
  (∀ he, (CreateBet ctx st).1 = Val (Some he) →
         Message he ≠ anyString (error_Error syntaxError)) ∧
  upstream_calls ctx st = [].
Proof.
  intros P ctx st.
  assert (Header_Get (ReqHeader (Context_Request ctx)) "Content-Type" = "application/json")
    as Hct by (vm_compute; reflexivity).
  assert (json_Decode_Bet (ReqBody (Context_Request ctx))
          = (mkBet "" "" "" "" "", Some syntaxError)) as Hbody by (vm_compute; reflexivity).
  destruct (CreateBet_undecodable_body ctx st _ _ Hct Hbody) as [E Hcalls].
  split_and!; [exact Hct | by rewrite Hbody | exact E | | exact Hcalls].
  intros he Hhe. rewrite E in Hhe. simpl in Hhe. injection Hhe as <-. discriminate.
Qed.

(** ** More of [main.go] on the scenarios *)

(** A request under construction that already has an [Authorization] with
    two values, an [X-B3-Sampled] and an [Accept]: the first is replaced by
    the inbound value, the other two stay, as the inbound [X-B3-Sampled] is
    empty and [Accept] is not in the list. *)
Example forwardHeaders_prepared :
  let P : Platform := all_up in
  ∃ r', forwardHeaders bet_request (Some prepared) (fresh P 0%nat)
          = (Val (Some r'), fresh P 0%nat) ∧
        ReqHeader r' !! "Authorization" = Some ["Bearer t0k3n"] ∧
        ReqHeader r' !! "X-Request-Id" = Some ["r-17"] ∧
        ReqHeader r' !! "X-B3-Sampled" = Some ["1"] ∧
        ReqHeader r' !! "Accept" = Some ["application/json"] ∧
        size (ReqHeader r') = 4%nat.
Proof.
  intros P. eexists. split; [apply forwardHeaders_Some|].
  split_and!; vm_compute; reflexivity.
Qed.

Lemma forwardHeaders_idempotent_witness :
  let P : Platform := all_up in
  let st := fresh P 0%nat in
  let r' := with_Header prepared
              (forwarded (ReqHeader (Context_Request bet_request)) (ReqHeader prepared)
                 incomingHeaders) in
  forwardHeaders bet_request (Some prepared) st = (Val (Some r'), st) ∧
  forwardHeaders bet_request (Some r') st = (Val (Some r'), st).
Proof.
  intros P st r'.
  assert (forwardHeaders bet_request (Some prepared) st = (Val (Some r'), st)) as H
    by exact (forwardHeaders_Some bet_request prepared st).
  split; [exact H|]. exact (forwardHeaders_idempotent bet_request prepared r' st st H).
Defined.

(** The player service cannot be reached. *)
Lemma call_transport_error_witness :
  let P : Platform := players_unreachable in
  let ctx := bet_request in
  let st := fresh P 0%nat in
  let err := {| origin := FromTransport; text := "dial tcp: connection refused" |} in
  let q := outbound ctx "PLAYER_SVC" in
  let r := (call Players ctx st).1 in
  let st' := (call Players ctx st).2 in
  (call Players ctx st = (r, st') ∧ exchanges st' = exchanges st ++ [(q, inr err)]) ∧
  r = Val (Text "", 0, Some err).
Proof.
  intros P ctx st err q r st'.
  assert (call Players ctx st = (r, st')) as H1 by exact (surjective_pairing _).
  assert (exchanges st' = exchanges st ++ [(q, inr err)]) as H2
    by exact (services_call_sent match_AB refused championship_League Players).
  split; [by split|].
  exact (call_transport_error Players ctx st r st' q err H1 H2).
Defined.

(** The championship service answers with its title. *)
Lemma call_decoded_witness :
  let P : Platform := all_up in
  let ctx := bet_request in
  let st := fresh P 0%nat in
  let res := {| Status := "200 OK"; StatusCode := 200;
                ResHeader := {[ "Content-Type" := ["application/json"] ]};
                ResBody := {| content := object_text [("title", VString "League")];
                              failure := None |} |} in
  let q := outbound ctx "CHAMPIONSHIP_SVC" in
  let r := (call Championships ctx st).1 in
  let st' := (call Championships ctx st).2 in
  (call Championships ctx st = (r, st') ∧
   exchanges st' = exchanges st ++ [(q, inl res)] ∧
   is2xx (StatusCode res) = true ∧
   decoded Championships res (Text "League")) ∧
  r = Val (Text "League", 200, None).
Proof.
  intros P ctx st res q r st'.
  assert (call Championships ctx st = (r, st')) as H1 by exact (surjective_pairing _).
  assert (championship_League = inl res) as Ha by (vm_compute; reflexivity).
  assert (exchanges st' = exchanges st ++ [(q, inl res)]) as H2.
  { rewrite <- Ha.
    exact (services_call_sent match_AB player_xy championship_League Championships). }
  assert (is2xx (StatusCode res) = true) as H3 by reflexivity.
  assert (decoded Championships res (Text "League")) as H4.
  { split; [reflexivity|]. exists {[ "title" := "League" ]}.
    split; vm_compute; reflexivity. }
  split; [split_and!; assumption|].
  exact (call_decoded Championships ctx st r st' q res (Text "League") H1 H2 H3 H4).
Defined.

(** The body of the player answer breaks off. *)
Lemma call_unreadable_witness :
  let P : Platform := player_cut_off in
  let ctx := bet_request in
  let st := fresh P 0%nat in
  let q := outbound ctx "PLAYER_SVC" in
  let r := (call Players ctx st).1 in
  let st' := (call Players ctx st).2 in
  (Players ≠ Matches ∧
   call Players ctx st = (r, st') ∧
   exchanges st' = exchanges st ++ [(q, inl cut_off)] ∧
   is2xx (StatusCode cut_off) = true ∧
   failure (ResBody cut_off) = Some unexpectedEOF) ∧
  r = Val (Text "", 200, Some unexpectedEOF).
Proof.
  intros P ctx st q r st'.
  assert (Players ≠ Matches) as H0 by discriminate.
  assert (call Players ctx st = (r, st')) as H1 by exact (surjective_pairing _).
  assert (exchanges st' = exchanges st ++ [(q, inl cut_off)]) as H2
    by exact (services_call_sent match_AB (inl cut_off) championship_League Players).
  assert (is2xx (StatusCode cut_off) = true) as H3 by reflexivity.
  assert (failure (ResBody cut_off) = Some unexpectedEOF) as H4 by reflexivity.
  split; [split_and!; assumption|].
  exact (call_unreadable Players ctx st r st' q cut_off unexpectedEOF H0 H1 H2 H3 H4).
Defined.

(** What [match] returns when the match service answers 500. *)
Lemma call_result_invariant_witness :
  let P : Platform := match_down in
  let ctx := bet_request in
  let st := fresh P 0%nat in
  let pl := MatchPointer None in
  let e := Some (errors_New "500 Internal Server Error") in
  let st' := (call Matches ctx st).2 in
  call Matches ctx st = (Val (pl, 500, e), st') ∧
  pl = empty_payload Matches ∧
  (e = None → is2xx 500 = true).
Proof.
  intros P ctx st pl e st'.
  assert ((call Matches ctx st).1 = Val (pl, 500, e)) as H0 by (vm_compute; reflexivity).
  assert (call Matches ctx st = (Val (pl, 500, e), st')) as H
    by exact (pair_with_fst _ _ H0).
  split; [exact H|].
  destruct (call_result_invariant Matches ctx st pl 500 e st' H) as (H1 & H2 & _).
  split; [apply H1; by eexists | exact H2].
Defined.

Lemma call_sends_one_request_witness :
  let P : Platform := all_up in
  let ctx := bet_request in
  let st := fresh P 0%nat in
  url_Parse (os_Getenv (site_key Players)) = None ∧
  ∃ q out t,
    call Players ctx st =
      (Val t, {| world := (transport q (world st)).2;
                 exchanges := exchanges st ++ [(q, out)];
                 written := written st |}) ∧
    Method q = "GET" ∧ URL q = "http://players/me" ∧ ReqBody q = NoBody.
Proof.
  intros P ctx st.
  assert (url_Parse (os_Getenv (site_key Players)) = None) as H by (vm_compute; reflexivity).
  split; [exact H|].
  destruct (call_sends_one_request Players ctx st H) as (q & out & t & E & _ & Hm & Hu & Hb & _).
  exists q, out, t. split_and!; [exact E | exact Hm | | exact Hb].
  rewrite Hu. vm_compute. reflexivity.
Defined.

(** The player endpoint is a host and port without a scheme. *)
Lemma call_endpoint_not_url_witness :
  let P : Platform := player_misconfigured in
  let ctx := bet_request in
  let st := fresh P 0%nat in
  let err := {| origin := FromErrorsNew;
                text := "parse: first path segment in URL cannot contain colon" |} in
  url_Parse (os_Getenv (site_key Players)) = Some err ∧
  call Players ctx st = (Panic nil_dereference, st).
Proof.
  intros P ctx st err.
  assert (url_Parse (os_Getenv (site_key Players)) = Some err) as H
    by (vm_compute; reflexivity).
  split; [exact H|]. exact (call_endpoint_not_url Players ctx st err H).
Defined.

(** The match service answers 500, and the other two are still called. *)
Lemma CreateBet_calls_all_three_witness :
  let P : Platform := match_down in
  let ctx := bet_request in
  let st := fresh P 0%nat in
  (accepted ctx ∧ ∀ d, url_Parse (os_Getenv (site_key d)) = None) ∧
  URL <$> (fst <$> upstream_calls ctx st) =
    [ "http://matches/current"; "http://players/me"; "http://championships/current" ] ∧
  (CreateBet ctx st).1 = Val None.
Proof.
  intros P ctx st.
  assert (accepted ctx) as H1 by apply bet_request_accepted.
  assert (∀ d, url_Parse (os_Getenv (site_key d)) = None) as H2 by apply env_urls.
  split; [by split|].
  destruct (CreateBet_calls_all_three ctx st H1 H2) as (Hcalls & _ & Hr & _).
  split; [|exact Hr]. rewrite Hcalls. vm_compute. reflexivity.
Defined.

(** Every service answers 200 with a body that is not JSON: the player
    service stands in the map with 200. *)
Lemma CreateBet_undecodable_answer_witness :
  let P : Platform := all_garbled in
  let ctx := bet_request in
  let st := fresh P 0%nat in
  let res := {| Status := "200 OK"; StatusCode := 200;
                ResHeader := {[ "Content-Type" := ["application/json"] ]};
                ResBody := {| content := "<html>"; failure := None |} |} in
  let x1 := sent P ctx Matches (inl res) in
  let x2 := sent P ctx Players (inl res) in
  let x3 := sent P ctx Championships (inl res) in
  (upstream_calls ctx st = [x1; x2; x3] ∧
   (site_exchange Players x1 x2 x3).2 = inl res ∧
   is2xx (StatusCode res) = true ∧
   undecodable Players res syntaxError) ∧
  ∃ s (errors : gmap string Z),
    CreateBet ctx st = (Val None, respond s 503 (marshal_Error {| Errors := errors |})) ∧
    errors !! "players" = Some 200.
Proof.
  intros P ctx st res x1 x2 x3.
  assert (answer 200 "<html>" = inl res) as Ha by (vm_compute; reflexivity).
  assert (upstream_calls ctx st = [x1; x2; x3]) as H1.
  { subst x1 x2 x3. rewrite <- Ha.
    exact (services_calls (answer 200 "<html>") (answer 200 "<html>")
             (answer 200 "<html>")). }
  assert ((site_exchange Players x1 x2 x3).2 = inl res) as H2 by reflexivity.
  assert (is2xx (StatusCode res) = true) as H3 by reflexivity.
  assert (undecodable Players res syntaxError) as H4.
  { split; [reflexivity|]. exists (∅ : gmap string string). vm_compute. reflexivity. }
  split; [split_and!; assumption|].
  exact (CreateBet_undecodable_answer Players ctx st x1 x2 x3 res syntaxError H1 H2 H3 H4).
Defined.

(** Two different submissions under the same headers. *)
Lemma CreateBet_ignores_body_witness :
  let P : Platform := all_up in
  let ctx := bet_request in
  let st := fresh P 0%nat in
  (accepted ctx ∧ ∃ bet, json_Decode_Bet other_bet = (bet, None)) ∧
  ReqBody (Context_Request (with_request_body ctx other_bet))
    ≠ ReqBody (Context_Request ctx) ∧
  CreateBet (with_request_body ctx other_bet) st = CreateBet ctx st.
Proof.
  intros P ctx st.
  assert (accepted ctx) as H1 by apply bet_request_accepted.
  assert (∃ bet, json_Decode_Bet other_bet = (bet, None)) as H2.
  { exists (mkBet "9" "" "" "" "z@y.com"). vm_compute. reflexivity. }
  split; [by split|]. split; [vm_compute; discriminate|].
  exact (CreateBet_ignores_body ctx other_bet st H1 H2).
Defined.

(** The player and championship answers are empty objects and the match
    has no team names: the answer still has its three members. *)
Lemma CreateBet_created_members_witness :
  let P : Platform :=
    platform env (services (answer 200 "{}") (answer 200 "{}") (answer 200 "{}")) in
  let ctx := bet_request in
  let st := fresh P 0%nat in
  let body := JObject [ ("homeTeamScore", JString "2"); ("awayTeamScore", JString "3");
                        ("match", JString " 2x3 ") ] in
  (written st = None ∧ written (CreateBet ctx st).2 = Some (201, body)) ∧
  member "homeTeamScore" body = Some (JString "2") ∧
  member "awayTeamScore" body = Some (JString "3") ∧
  ∃ h a, member "match" body = Some (JString (h +:+ " 2x3 " +:+ a)).
Proof.
  intros P ctx st body.
  assert (written st = None) as H1 by reflexivity.
  assert (written (CreateBet ctx st).2 = Some (201, body)) as H2 by (vm_compute; reflexivity).
  split; [by split|]. exact (CreateBet_created_members ctx st body H1 H2).
Defined.

Lemma CreateBet_created_only_if_witness :
  let P : Platform := all_up in
  let ctx := bet_request in
  let st := fresh P 0%nat in
  let body := JObject [ ("homeTeamScore", JString "2"); ("awayTeamScore", JString "3");
                        ("championship", JString "League");
                        ("match", JString "A 2x3 B"); ("email", JString "x@y.com") ] in
  (written st = None ∧ written (CreateBet ctx st).2 = Some (201, body)) ∧
  ∃ x1 x2 x3 data players champs,
    upstream_calls ctx st = [x1; x2; x3] ∧
    match_answer x1.2 data ∧ map_answer x2.2 players ∧ map_answer x3.2 champs.
Proof.
  intros P ctx st body.
  assert (written st = None) as H1 by reflexivity.
  assert (written (CreateBet ctx st).2 = Some (201, body)) as H2 by (vm_compute; reflexivity).
  split; [by split|]. exact (CreateBet_created_only_if ctx st body H1 H2).
Defined.

End Scenarios.
